(* ===== verification/_CoqProject ===== *)
-Q . S2P
Prelude.v
Api.v
State.v
Flow.v
Catalog.v
Search.v
Detail.v
System.v
View.v
Contract.v
Ordering.v
