(* ===== verification/Prelude.v ===== *)
(** * A verification development for screen-gem's movie client

    The program is one React component, [App] in
    [src/screen-gem/src/App.jsx].  It keeps five pieces of UI state
    ([movies], [selectedMovie], [searchQuery], [errorMessage], [loading],
    lines 5-9) and runs three asynchronous flows that read a movie API
    through axios and write that state:
    - the catalog loader ([fetchMovies] in the mount effect, lines 16-48);
    - the search controller ([handleSearchChange], lines 49-114), whose
      empty-query branch reloads the popular list and whose other branch
      calls the search endpoint;
    - the detail resolver ([handleMovieClick], lines 116-153), which selects
      a movie and then looks up its trailer;
    plus the Close button (line 215) and the render function (lines
    155-224).  The flows share the state and interleave: the browser runs
    one task at a time, and requests settle in any order.

    ** Files, in dependency order
    - [Prelude] (this file): the scope [app_scope], the hint databases
      [app] and [app_rw], lemmas on [find] and strings, the JavaScript
      exception value [JsError], and the state-exception monad [ST] (an
      stdpp monad) with the JavaScript [try]/[catch]/[finally].
    - [Api]: what the code reads from responses ([Movie], [Video],
      [HttpResponse]), the requests it sends (URLs and query parameters,
      lines 11-14, 20-26, 84-91, 120-128), the response test of line 27
      ([ok_results]), and the axios layer ([axios_settle], library code
      modelled from axios's documented default [validateStatus]).
    - [State]: [AppState] (lines 5-9) plus the console ([World]); the
      setters as [ST] actions; the selected object with its [trailerUrl]
      ([Selected], [Trailer]) and the spread of lines 134-148; the message
      texts; the suspension points [Pending].
    - [Flow]: the interfaces between the handlers and the event loop:
      [StartFlow] (a handler's synchronous prefix), [ListFlow] (a list
      continuation: clears [loading], keeps selection and query, writes only
      known messages), [TrailerFlow] (the trailer continuation writes only
      the selection); the branch view [list_outcome] of a settled request and
      the effect table [ListEffect]/[apply_effect] every list continuation is
      proved equal to.
    - [Catalog] (Module [Catalog]): [fetchMovies_start], [fetchMovies_resume],
      [classify_error], [report_error]; instances of [StartFlow]/[ListFlow].
    - [Search] (Module [Search]): [handleSearchChange_start],
      [reset_resume], [search_resume]; instances.
    - [Detail] (Module [Detail]): [click_start], [videos_resume],
      [find_trailer], [trailer_url], [close_modal]; instances.
    - [System] (Module [System]): the event loop.  [Sys] holds the world,
      the suspended handlers ([pending : gmap nat Pending]), the next
      request number and whether the effect has run; [step] is one task
      (mount, input, card click, Close, settlement of any pending request),
      [run] a sequence, [reachable] the states reachable from the first
      render.  Its invariant [sys_inv] is proved from the [Flow] laws only;
      it includes [pending_ok], the [query === ""] test of line 53 that
      keeps empty searches from being sent.
    - [View] (Module [View]): [render], what the JSX shows for a state:
      the input's value, the error and loading lines, the cards and the
      modal.
    - [Contract] (Module [Contract]): the specification's contract for a
      settled list request ([contract_effect], written from the spec, §4 and
      §7) and the exact refinement theorems.
    - [Ordering] (Module [Ordering]): what the screen shows after a
      sequence of events: the frame lemmas saying which steps leave the
      query and the list alone, and the ordering and race theorems.

    ** Modelling choices
    - Async code.  Every handler awaits exactly one request: it is its
      synchronous prefix, returning the [Pending] tag of its continuation,
      and the continuation, a function of the settled axios result that
      runs the code after the [await] inside the source's
      [try]/[catch]/[finally].
    - React setters.  The handlers never read a state variable (only the
      functional updates of lines 134-148 read the previous selection), so
      applying each setter where it is called gives the state React renders
      after its batched updates.
    - JavaScript values.  [response.data] may be [null] (reading [.results]
      then throws a [TypeError], which has no [.response]); [results] is
      [None] for [undefined]/[null] (falsy) and [Some l] for an array
      (truthy, even empty); the trailer property is unset, [null] or a
      string.  Template literals print [null] and [undefined] as text.
    - Integers.  HTTP statuses and movie ids are [Z]; the code only compares
      them, so no machine width matters.
    - No fuel: every definition is structurally recursive or not recursive,
      and the event loop is a step function on states driven by a list of
      events, so every run computes.
    - Request numbers.  [suspend] files a handler under [next_req], which
      only grows; the numbers are a device of the model (the code keeps no
      such table: each pending [await] is a closure), used to name which
      request settles.
    - Proof structure.  The [ListFlow] and [TrailerFlow] instances are
      proved on the code of each continuation, branch by branch (the
      tactics [split_branches] and [Catalog.solve_list_flow]); the
      branch tables [*_effect] are separate lemmas, used by the
      properties.

    ** What is proved
    - Catalog and Search: the result of each continuation on every branch
      (success, empty or absent results, [null] body, no response, status
      classes), that the reset branch gives the same list as the catalog
      fetch, and that failures are treated alike.
    - Detail: [find_trailer] returns the first YouTube trailer; the trailer
      URL or the [null] marker is attached; failures only log; the request
      does not depend on the movie (the URL is a plain literal).
    - System: in every reachable state the message is a known text and
      [loading] is off once no list request is in flight; no continuation
      throws; the mount effect runs once; [loading] clears while a request
      is still in flight.  Every request in flight has the shape of the
      specification's interface table (§6), and every keystroke with a
      non-empty text adds a search for that text while the earlier ones
      stay in flight (no debouncing, no cancellation).
    - Ordering: the input box shows the last text typed, whatever arrives
      afterwards; the cards are the last non-empty list answer to arrive,
      whichever request it answers.  The races are theorems with reachable
      witnesses: a stale search answer is applied by the search branch
      whatever the current query, and a late trailer reopens a closed
      modal or lands on another movie.
    - Contract: for each list continuation, the code realises the
      specification's contract on a network reply if and only if the reply
      is outside an explicit set of divergent replies.

    ** Not modelled
    Styling and layout, React's reconciliation by [key], the payloads
    logged by [console.error] beyond their text, and axios's serialisation
    of requests (requests are compared as URL and parameters).

    ** Plan for later work
    State a generation-counter fix of the stale-response race as an
    alternative [step] and prove it refines the contract that only the
    latest query's answer is shown; relate the trailer race to a
    per-movie contract; relate the error and loading lines of [render] to
    the invariants of [System].
*)
From stdpp Require Export base list strings.
From Stdlib Require Export ZArith.

Declare Scope app_scope.
Delimit Scope app_scope with app.
Open Scope app_scope.

Create HintDb app discriminated.
Create Rewrite HintDb app_rw.

(** ** JavaScript exceptions and the state-exception monad *)

(** The value a [catch (error)] clause receives.  The code reads only
    [error.response] and its [status]: [response] is [None] when the value
    has no [response] property (a network failure, or a [TypeError]). *)
Record JsError := mkJsError { response : option Z }.

#[export] Instance JsError_eq_dec : EqDecision JsError.
Proof. solve_decision. Defined.

(** The completion of a synchronous block: normal, or an exception. *)
Inductive Res (A : Type) := Ok (a : A) | Throw (e : JsError).
Arguments Ok {A} a.
Arguments Throw {A} e.

(** A computation over a state [S] that may throw. *)
Definition ST (S A : Type) : Type := S -> Res A * S.

Section Monad.
Context {S : Type}.

Definition ret {A} (a : A) : ST S A := fun s => (Ok a, s).

Definition bind {A B} (c : ST S A) (k : A -> ST S B) : ST S B :=
  fun s => match c s with
           | (Ok a, s') => k a s'
           | (Throw e, s') => (Throw e, s')
           end.

Definition throw {A} (e : JsError) : ST S A := fun s => (Throw e, s).

Definition modify (f : S -> S) : ST S unit := fun s => (Ok tt, f s).

(** [try { c } catch (e) { h e }] *)
Definition try_catch {A} (c : ST S A) (h : JsError -> ST S A) : ST S A :=
  fun s => match c s with
           | (Ok a, s') => (Ok a, s')
           | (Throw e, s') => h e s'
           end.

(** [try { c } finally { f }]: [f] runs on every exit of [c]; its own
    exception, if any, replaces [c]'s completion. *)
Definition try_finally {A} (c : ST S A) (f : ST S unit) : ST S A :=
  fun s => match c s with
           | (r, s') => match f s' with
                        | (Ok _, s'') => (r, s'')
                        | (Throw e, s'') => (Throw e, s'')
                        end
           end.

(** The final state of a computation. *)
Definition exec {A} (c : ST S A) (s : S) : S := snd (c s).
End Monad.

(** [ST S] is a monad in stdpp's sense, so the handlers are written with
    stdpp's [x ← c; k] and [c ;; k]. *)
#[export] Instance ST_ret {S} : MRet (ST S) := fun A a => ret a.
#[export] Instance ST_bind {S} : MBind (ST S) := fun A B k c => bind c k.

(** ** Generic lemmas on [find] and strings *)

Section Find.
Context {A : Type} (f : A -> bool).

(** [Array.prototype.find] returns the first element the predicate
    accepts: the list splits at it and nothing before it is accepted. *)
Lemma find_Some_iff (l : list A) (x : A) :
  find f l = Some x <->
  exists l1 l2, l = l1 ++ x :: l2 /\ f x = true /\ Forall (fun y => f y = false) l1.
Proof.
  split.
  - induction l as [|y l IH]; simpl; [discriminate|].
    destruct (f y) eqn:Hy.
    + intros [= <-]. exists [], l. auto.
    + intros H. destruct (IH H) as (l1 & l2 & -> & Hx & Hl1).
      exists (y :: l1), l2. auto.
  - intros (l1 & l2 & -> & Hx & Hl1). induction Hl1 as [|y l1 Hy _ IH]; simpl.
    + by rewrite Hx.
    + by rewrite Hy.
Qed.

Lemma find_None_iff (l : list A) :
  find f l = None <-> Forall (fun y => f y = false) l.
Proof.
  induction l as [|y l IH]; simpl; [split; auto|].
  destruct (f y) eqn:Hy; split.
  - discriminate.
  - intros Hf. inversion Hf; congruence.
  - intros H. constructor; [done|]. by apply IH.
  - intros Hf. inversion Hf; subst. by apply IH.
Qed.
End Find.

Lemma append_nonempty_l (p s : string) : p <> ""%string -> p +:+ s <> ""%string.
Proof. destruct p; simpl; intros H; [done | discriminate]. Qed.
