(* ===== verification/Api.v ===== *)
(** * The movie API as the component sees it

    The records the code reads out of responses ([Movie], [Video]), the
    requests it sends (URL and query parameters, App.jsx lines 11-14,
    20-26, 56-62, 84-91, 120-128), the response objects axios hands back,
    and the axios layer itself: with its default [validateStatus],
    [axios.get] resolves for a 2xx status and rejects otherwise, with an
    error whose [response] is the server's response, or without one when no
    response arrived.  The axios layer is library code, modelled from its
    documented behaviour. *)
From S2P Require Import Prelude.

Open Scope string_scope.

(** ** Data read from responses *)

(** A movie as the code reads it: [movie.id] (the React key),
    [movie.title], [movie.poster_path] (nullable), [movie.release_date]
    and [movie.overview] (optional). *)
Record Movie := mkMovie {
  id : Z;
  title : string;
  poster_path : option string;
  release_date : option string;
  overview : option string
}.

#[export] Instance Movie_eq_dec : EqDecision Movie.
Proof. solve_decision. Defined.

(** A video of [/movie/{id}/videos]: the code reads [type], [site], [key]. *)
Record Video := mkVideo { type : string; site : string; key : string }.

#[export] Instance Video_eq_dec : EqDecision Video.
Proof. solve_decision. Defined.

(** [response.data]: only its [results] field is read; [None] stands for
    [undefined] or [null], the falsy values. *)
Record Body (A : Type) := mkBody { results : option (list A) }.
Arguments mkBody {A} results.
Arguments results {A} _.

(** An axios response: [status] and [data]; [data = None] is a [null] body. *)
Record HttpResponse (A : Type) := mkResponse { status : Z; data : option (Body A) }.
Arguments mkResponse {A} status data.
Arguments status {A} _.
Arguments data {A} _.

(** ** Requests *)

Inductive Param := PStr (s : string) | PNum (n : Z).

#[export] Instance Param_eq_dec : EqDecision Param.
Proof. solve_decision. Defined.

Record Request := mkRequest { url : string; params : list (string * Param) }.

#[export] Instance Request_eq_dec : EqDecision Request.
Proof. solve_decision. Defined.

Definition apiKey : string := "c1d9c062859ee2693fafa991d613045a".
Definition apiUrl : string := "https://api.themoviedb.org/3/movie/popular".
Definition searchUrl : string := "https://api.themoviedb.org/3/search/movie".
Definition youtubeUrl : string := "https://www.youtube.com/watch?v=".

(** Line 121 writes the videos URL in single quotes, not backticks, so
    [${movie.id}] is not interpolated: the literal is sent as it is. *)
Definition videosUrl : string := "https://api.themoviedb.org/3/movie/${movie.id}/videos".

(** [axios.get(apiUrl, { params: { api_key, language, page: 1 } })] *)
Definition popular_request : Request :=
  mkRequest apiUrl [("api_key", PStr apiKey); ("language", PStr "en-US"); ("page", PNum 1)].

(** [axios.get(searchUrl, { params: { api_key, query, language, page: 1 } })] *)
Definition search_request (query : string) : Request :=
  mkRequest searchUrl
    [("api_key", PStr apiKey); ("query", PStr query); ("language", PStr "en-US"); ("page", PNum 1)].

(** [axios.get('.../${movie.id}/videos', { params: { api_key, language } })];
    the movie is an argument because the code means to send its id. *)
Definition videos_request (movie : Movie) : Request :=
  mkRequest videosUrl [("api_key", PStr apiKey); ("language", PStr "en-US")].

(** ** The axios layer *)

(** What the network gives back for a request. *)
Inductive NetReply (A : Type) := NoReply | Reply (r : HttpResponse A).
Arguments NoReply {A}.
Arguments Reply {A} r.

(** How the promise of [axios.get] settles. *)
Inductive AxiosResult (A : Type) := Resolved (r : HttpResponse A) | Rejected (e : JsError).
Arguments Resolved {A} r.
Arguments Rejected {A} e.

(** axios's default [validateStatus]: [status >= 200 && status < 300]. *)
Definition validateStatus (s : Z) : bool := (200 <=? s)%Z && (s <? 300)%Z.

Definition axios_settle {A} (r : NetReply A) : AxiosResult A :=
  match r with
  | NoReply => Rejected (mkJsError None)
  | Reply resp =>
      if validateStatus (status resp) then Resolved resp
      else Rejected (mkJsError (Some (status resp)))
  end.

(** [const response = await p] inside a [try]: a rejection throws. *)
Definition await_result {S A} (r : AxiosResult A) : ST S (HttpResponse A) :=
  match r with
  | Resolved resp => mret resp
  | Rejected e => throw e
  end.

(** The test [response.status === 200 && response.data.results] of lines
    27, 63, 92 and 129, returning the results when it is truthy.  The [&&]
    short-circuits, so [data] is read only for status 200, and reading
    [.results] of a [null] body throws a [TypeError], which has no
    [response] property. *)
Definition ok_results {S A} (response : HttpResponse A) : ST S (option (list A)) :=
  if (status response =? 200)%Z then
    match data response with
    | None => throw (mkJsError None)
    | Some body => mret (results body)
    end
  else mret None.

(** Helpers for concrete responses. *)
Definition ok_reply {A} (l : list A) : NetReply A := Reply (mkResponse 200 (Some (mkBody (Some l)))).
