(* ===== verification/State.v ===== *)
(** * The component's state and its setters

    [AppState] is the five [useState] variables of App.jsx (lines 5-9);
    [World] adds the browser console the [catch] clauses write to.  Each
    React setter is an action of the monad [M]; the functional update
    [setSelectedMovie((prevState) => ({ ...prevState, trailerUrl }))] of
    lines 134-148 is [updateSelectedMovie] applied to [spread_trailer].
    [Pending] names the point at which a handler waits for its request. *)
From S2P Require Import Prelude Api.

Open Scope string_scope.

(** ** The selected movie *)

(** The [trailerUrl] property of the selected object: absent until the
    lookup settles, then [null] or a URL. *)
Inductive Trailer := TrailerUnset | TrailerNull | TrailerUrl (u : string).

#[export] Instance Trailer_eq_dec : EqDecision Trailer.
Proof. solve_decision. Defined.

(** The value of [selectedMovie] when it is not [null]: the movie's own
    properties ([sel_movie], [None] when the object was spread from [null]
    and has none) and the trailer property. *)
Record Selected := mkSelected { sel_movie : option Movie; trailerUrl : Trailer }.

#[export] Instance Selected_eq_dec : EqDecision Selected.
Proof. solve_decision. Defined.

(** [setSelectedMovie(movie)] stores the movie object itself (line 117). *)
Definition select (movie : Movie) : Selected := mkSelected (Some movie) TrailerUnset.

(** [{ ...prevState, trailerUrl: t }] (lines 134-148): spreading [null]
    copies no property. *)
Definition spread_trailer (prevState : option Selected) (t : Trailer) : Selected :=
  match prevState with
  | Some s => mkSelected (sel_movie s) t
  | None => mkSelected None t
  end.

(** ** The state *)

Record AppState := mkAppState {
  movies : list Movie;
  selectedMovie : option Selected;
  searchQuery : string;
  errorMessage : string;
  loading : bool
}.

#[export] Instance AppState_eq_dec : EqDecision AppState.
Proof. solve_decision. Defined.

(** [useState([])], [useState(null)], [useState("")], [useState("")],
    [useState(false)]. *)
Definition initial_state : AppState := mkAppState [] None "" "" false.

Record World := mkWorld { ui : AppState; console : list string }.

Definition initial_world : World := mkWorld initial_state [].

(** Computations of the handlers. *)
Abbreviation M := (ST World).

(** ** Setters *)

Definition set_ui (f : AppState -> AppState) : M unit :=
  modify (fun w => mkWorld (f (ui w)) (console w)).

Definition setMovies (l : list Movie) : M unit :=
  set_ui (fun s => mkAppState l (selectedMovie s) (searchQuery s) (errorMessage s) (loading s)).

Definition setSelectedMovie (v : option Selected) : M unit :=
  set_ui (fun s => mkAppState (movies s) v (searchQuery s) (errorMessage s) (loading s)).

(** The functional form [setSelectedMovie(prev => ...)]: the update reads
    the selection current when it is applied. *)
Definition updateSelectedMovie (f : option Selected -> option Selected) : M unit :=
  set_ui (fun s => mkAppState (movies s) (f (selectedMovie s)) (searchQuery s) (errorMessage s) (loading s)).

Definition setSearchQuery (q : string) : M unit :=
  set_ui (fun s => mkAppState (movies s) (selectedMovie s) q (errorMessage s) (loading s)).

Definition setErrorMessage (m : string) : M unit :=
  set_ui (fun s => mkAppState (movies s) (selectedMovie s) (searchQuery s) m (loading s)).

Definition setLoading (b : bool) : M unit :=
  set_ui (fun s => mkAppState (movies s) (selectedMovie s) (searchQuery s) (errorMessage s) b).

(** [console.error(msg, error)]: the message is recorded. *)
Definition console_error (msg : string) : M unit :=
  modify (fun w => mkWorld (ui w) (console w ++ [msg])).

(** ** Messages shown in [errorMessage] *)

Definition noMoviesMsg : string := "No movies found.".
Definition networkErrorMsg : string := "Network error: Please check your connection.".
Definition serverErrorMsg : string := "Server error: Please try again later.".
Definition unexpectedErrorMsg : string := "An unexpected error occurred.".

(** The values [errorMessage] can hold: [""] and the four messages. *)
Definition known_message (m : string) : Prop :=
  m = "" \/ m = noMoviesMsg \/ m = networkErrorMsg \/ m = serverErrorMsg \/ m = unexpectedErrorMsg.

#[export] Instance known_message_dec m : Decision (known_message m).
Proof. unfold known_message. apply _. Defined.

(** ** Suspended handlers *)

(** A handler waiting at its [await], with what the code after the
    [await] still needs to know. *)
Inductive Pending :=
  | PCatalog                  (** [fetchMovies], line 20 *)
  | PReset                    (** [handleSearchChange("")], line 56 *)
  | PSearch (query : string)  (** [handleSearchChange(query)], line 84 *)
  | PVideos (movie : Movie).  (** [handleMovieClick(movie)], line 120 *)

#[export] Instance Pending_eq_dec : EqDecision Pending.
Proof. solve_decision. Defined.

(** The request each suspended handler has sent. *)
Definition request_of (p : Pending) : Request :=
  match p with
  | PCatalog | PReset => popular_request
  | PSearch q => search_request q
  | PVideos m => videos_request m
  end.

(** A suspension point the code can produce: a search is sent only for a
    non-empty query (the [query === ""] test of line 53). *)
Definition pending_ok (p : Pending) : Prop :=
  match p with PSearch q => q <> "" | _ => True end.

(** A request of the movie list, which drives [loading]. *)
Definition is_list_request (p : Pending) : bool :=
  match p with PVideos _ => false | _ => true end.

(** ** Reasoning about runs *)

(** The setters do not throw, and a run of straight-line code computes:
    [run_M] unfolds the monad and the setters and simplifies. *)
Ltac run_M :=
  cbn [exec fst snd mret mbind ST_ret ST_bind ret bind throw modify try_catch try_finally
       set_ui setMovies setSelectedMovie updateSelectedMovie setSearchQuery setErrorMessage
       setLoading console_error await_result ok_results ui console movies selectedMovie
       searchQuery errorMessage loading] in *.

(** Case on each [if] and each optional value a handler's body tests, and
    run the branch. *)
Ltac split_branches :=
  repeat match goal with
  | |- context [match ?b with true => _ | false => _ end] => destruct b; run_M
  | |- context [match ?o with Some _ => _ | None => _ end] => destruct o; run_M
  end.

#[export] Hint Extern 1 (known_message _) => unfold known_message; tauto : app.
