(* ===== verification/Flow.v ===== *)
(** * What a settling request promises the event loop

    The event loop ([System]) runs the continuation of a suspended handler
    when its request settles.  These classes state what such a
    continuation does to the shared state, whatever the request returned:
    - [ListFlow] for the three continuations that fetch the movie list
      ([fetchMovies] and both branches of [handleSearchChange]): the
      [finally] clears [loading], the selection and the query are left
      alone, and [errorMessage] only ever receives one of the known
      messages;
    - [TrailerFlow] for the continuation of [handleMovieClick]: it writes
      the selection and the console and nothing else.
    - [StartFlow] for the synchronous prefix of each handler.
    The handlers' files prove the instances; [System] proves its
    invariants from the class laws alone. *)
From S2P Require Import Prelude Api State.

(** ** The outcome of a list request, as the code's branches see it *)

(** After [const response = await ...] and the test of line 27, a list
    continuation is in one of three cases: the [try] body threw (the
    promise rejected, or [response.data] was [null]), the test was falsy,
    or it produced an array. *)
Inductive ListOutcome (A : Type) := Failed (e : JsError) | NoResults | Results (l : list A).
Arguments Failed {A} e.
Arguments NoResults {A}.
Arguments Results {A} l.

Definition list_outcome {A} (r : AxiosResult A) : ListOutcome A :=
  match r with
  | Rejected e => Failed e
  | Resolved resp =>
      if (status resp =? 200)%Z then
        match data resp with
        | None => Failed (mkJsError None)
        | Some body => match results body with Some l => Results l | None => NoResults end
        end
      else NoResults
  end.

(** ** What a list continuation does to the state *)

(** The effect on the UI state once the continuation has finished:
    replace the list and clear the message, report a message, or keep
    both; the [finally] always clears [loading]. *)
Inductive ListEffect := Replace (l : list Movie) | Report (msg : string) | Keep.

Definition apply_effect (eff : ListEffect) (s : AppState) : AppState :=
  match eff with
  | Replace l => mkAppState l (selectedMovie s) (searchQuery s) "" false
  | Report m => mkAppState (movies s) (selectedMovie s) (searchQuery s) m false
  | Keep => mkAppState (movies s) (selectedMovie s) (searchQuery s) (errorMessage s) false
  end.

Class ListFlow (resume : AxiosResult Movie -> M unit) : Prop := {
  list_flow_loading r w : loading (ui (exec (resume r) w)) = false;
  list_flow_selection r w : selectedMovie (ui (exec (resume r) w)) = selectedMovie (ui w);
  list_flow_query r w : searchQuery (ui (exec (resume r) w)) = searchQuery (ui w);
  list_flow_message r w :
    known_message (errorMessage (ui w)) -> known_message (errorMessage (ui (exec (resume r) w)))
}.

(** A handler's synchronous prefix: it returns a well-formed point where
    it waits, leaves the list and the message alone, and sets [loading]
    only when it waits for the list. *)
Class StartFlow (start : M Pending) : Prop := {
  start_flow w : exists p w', start w = (Ok p, w') /\ pending_ok p /\
    movies (ui w') = movies (ui w) /\
    errorMessage (ui w') = errorMessage (ui w) /\
    (loading (ui w') = true -> is_list_request p = true \/ loading (ui w) = true)
}.

Class TrailerFlow (resume : AxiosResult Video -> M unit) : Prop := {
  trailer_flow_frame r w :
    movies (ui (exec (resume r) w)) = movies (ui w) /\
    searchQuery (ui (exec (resume r) w)) = searchQuery (ui w) /\
    errorMessage (ui (exec (resume r) w)) = errorMessage (ui w) /\
    loading (ui (exec (resume r) w)) = loading (ui w)
}.

(** A [try]/[catch] whose body and handler run only setters ends normally:
    the shape every continuation of App.jsx has.  [total c] says that [c]
    never throws. *)
Definition total {S A} (c : ST S A) : Prop := forall s, exists a, fst (c s) = Ok a.

(** ** Lemmas *)

(** The [await] and the response test, run: they only decide the branch. *)
Lemma await_ok_results {S A B} (r : AxiosResult A) (k : option (list A) -> ST S B) (s : S) :
  (response ← await_result r; res ← ok_results response; k res) s =
  match list_outcome r with
  | Failed e => (Throw e, s)
  | NoResults => k None s
  | Results l => k (Some l) s
  end.
Proof.
  destruct r as [resp|e]; [|reflexivity].
  destruct resp as [st [[[l|]]|]];
    unfold mbind, mret, ST_bind, ST_ret, bind, ret, await_result, ok_results; cbn;
    destruct (st =? 200)%Z; reflexivity.
Qed.

(** How a network reply reaches the code's branches, through axios. *)
Lemma outcome_no_reply {A} : list_outcome (axios_settle (@NoReply A)) = Failed (mkJsError None).
Proof. reflexivity. Qed.

Lemma outcome_ok_reply {A} (l : list A) : list_outcome (axios_settle (ok_reply l)) = Results l.
Proof. reflexivity. Qed.

Lemma outcome_http_error {A} (resp : HttpResponse A) :
  validateStatus (status resp) = false ->
  list_outcome (axios_settle (Reply resp)) = Failed (mkJsError (Some (status resp))).
Proof. intros Hv. cbn. by rewrite Hv. Qed.

Lemma outcome_no_results {A} (resp : HttpResponse A) :
  validateStatus (status resp) = true ->
  (status resp <> 200%Z \/ exists body, data resp = Some body /\ results body = None) ->
  list_outcome (axios_settle (Reply resp)) = NoResults.
Proof.
  intros Hv Hno. cbn. rewrite Hv. cbn.
  destruct Hno as [Hst | (body & Hd & Hr)].
  - by rewrite (proj2 (Z.eqb_neq _ _) Hst).
  - rewrite Hd, Hr. by destruct (status resp =? 200)%Z.
Qed.

Lemma outcome_null_body {A} (resp : HttpResponse A) :
  status resp = 200%Z -> data resp = None ->
  list_outcome (axios_settle (Reply resp)) = Failed (mkJsError None).
Proof. intros Hs Hd. cbn. rewrite Hs. cbn. by rewrite Hs, Hd. Qed.

Section Total.
Context {S : Type}.

Lemma total_try_catch {A} (c : ST S A) (h : JsError -> ST S A) :
  (forall e, total (h e)) -> total (try_catch c h).
Proof.
  intros Hh s. unfold try_catch. destruct (c s) as [[a|e] s']; [by exists a|].
  apply Hh.
Qed.

Lemma total_try_finally {A} (c : ST S A) (f : ST S unit) :
  total c -> total f -> total (try_finally c f).
Proof.
  intros Hc Hf s. unfold try_finally. destruct (Hc s) as [a Ha].
  destruct (c s) as [r s']; simpl in Ha; subst r.
  destruct (Hf s') as [u Hu]. destruct (f s') as [r' s'']; simpl in Hu; subst r'.
  by exists a.
Qed.

Lemma total_modify (f : S -> S) : total (modify f).
Proof. intros s. by exists tt. Qed.

Lemma total_bind {A B} (c : ST S A) (k : A -> ST S B) :
  total c -> (forall a, total (k a)) -> total (c ≫= k).
Proof.
  intros Hc Hk s. unfold mbind, ST_bind, bind. destruct (Hc s) as [a Ha].
  destruct (c s) as [r s']; simpl in Ha; subst r. apply Hk.
Qed.
End Total.

#[export] Hint Resolve total_try_catch total_try_finally total_modify total_bind : app.
#[export] Hint Rewrite @outcome_no_reply @outcome_ok_reply : app_rw.
