(* ===== verification/Catalog.v ===== *)
(** * The catalog loader: [fetchMovies] (App.jsx lines 16-48)

    The mount effect calls [fetchMovies] once.  Its synchronous prefix
    sets [loading] and sends the popular-list request
    ([fetchMovies_start]); the rest runs when the request settles
    ([fetchMovies_resume]): the response test of line 27, the [catch] with
    the three-way classification of lines 33-41 ([classify_error], shared
    with the search controller), and the [finally] of line 43. *)
From S2P Require Import Prelude Api State Flow.

Open Scope string_scope.

Module Catalog.

(** [if (!error.response) ... else if (error.response.status >= 500) ... else ...] *)
Definition classify_error (error : JsError) : string :=
  match response error with
  | None => networkErrorMsg
  | Some st => if (500 <=? st)%Z then serverErrorMsg else unexpectedErrorMsg
  end.

(** The [catch (error)] clause of lines 33-41 (and 67-75, 102-110). *)
Definition report_error (error : JsError) : M unit :=
  console_error "Network error or invalid API response:" ;;
  setErrorMessage (classify_error error).

Definition fetchMovies_start : M Pending :=
  setLoading true ;;
  mret PCatalog.

Definition fetchMovies_resume (r : AxiosResult Movie) : M unit :=
  try_finally
    (try_catch
       (response ← await_result r;
        res ← ok_results response;
        match res with
        | Some l => setMovies l ;; setErrorMessage ""
        | None => setErrorMessage noMoviesMsg
        end)
       report_error)
    (setLoading false).

(** What [fetchMovies_resume] does, branch by branch. *)
Definition catalog_effect (o : ListOutcome Movie) : ListEffect :=
  match o with
  | Results l => Replace l
  | NoResults => Report noMoviesMsg
  | Failed e => Report (classify_error e)
  end.

(** ** Lemmas the properties share *)

Lemma classify_error_known e : known_message (classify_error e).
Proof.
  unfold classify_error, known_message. repeat case_match; tauto.
Qed.

Lemma fetchMovies_start_run w :
  fetchMovies_start w =
  (Ok PCatalog, mkWorld (mkAppState (movies (ui w)) (selectedMovie (ui w)) (searchQuery (ui w))
                           (errorMessage (ui w)) true) (console w)).
Proof. reflexivity. Qed.

Lemma fetchMovies_resume_effect r w :
  ui (exec (fetchMovies_resume r) w) = apply_effect (catalog_effect (list_outcome r)) (ui w).
Proof.
  unfold fetchMovies_resume, exec, try_finally, try_catch.
  rewrite await_ok_results. destruct (list_outcome r); reflexivity.
Qed.

#[export] Instance fetchMovies_start_flow : StartFlow fetchMovies_start.
Proof. split. intros w. rewrite fetchMovies_start_run. do 2 eexists. by repeat split; [..|left]. Qed.

(** The laws of [ListFlow], checked on the code of a continuation: run the
    [await] and the response test, then every branch of the body, the
    [catch] and the [finally]. *)
Ltac solve_list_flow resume :=
  split; intros r w; unfold resume, exec, try_finally, try_catch;
  rewrite await_ok_results; destruct (list_outcome r);
  unfold report_error, mbind, mret, ST_bind, ST_ret, bind, ret; run_M;
  split_branches; auto using classify_error_known with app.

#[export] Instance fetchMovies_flow : ListFlow fetchMovies_resume.
Proof. solve_list_flow fetchMovies_resume. Qed.

(** ** Properties of the catalog loader *)

(** C1: when the popular list answers 200 with an array of results, the
    list shown becomes that array verbatim, whatever its length, the error
    message is cleared and [loading] is false; the selection and the query
    are left as they were. *)
Theorem fetchMovies_success (l : list Movie) (w : World) :
  ui (exec (fetchMovies_resume (axios_settle (ok_reply l))) w) =
  mkAppState l (selectedMovie (ui w)) (searchQuery (ui w)) "" false.
Proof. by rewrite fetchMovies_resume_effect. Qed.

(** C2: when no response arrives, the message is exactly
    "Network error: Please check your connection.", the list is kept and
    [loading] is false. *)
Theorem fetchMovies_offline (w : World) :
  ui (exec (fetchMovies_resume (axios_settle NoReply)) w) =
  mkAppState (movies (ui w)) (selectedMovie (ui w)) (searchQuery (ui w)) networkErrorMsg false.
Proof. by rewrite fetchMovies_resume_effect. Qed.

(** C3: when the server answers with a status outside 2xx, axios rejects
    and the message is the server-error text for a status of 500 or more
    and the unexpected-error text otherwise; the list is kept and
    [loading] is false. *)
Theorem fetchMovies_http_error (resp : HttpResponse Movie) (w : World) :
  validateStatus (status resp) = false ->
  ui (exec (fetchMovies_resume (axios_settle (Reply resp))) w) =
  mkAppState (movies (ui w)) (selectedMovie (ui w)) (searchQuery (ui w))
    (if (500 <=? status resp)%Z then serverErrorMsg else unexpectedErrorMsg) false.
Proof.
  intros Hv. by rewrite fetchMovies_resume_effect, outcome_http_error.
Qed.

Lemma fetchMovies_http_error_witness :
  validateStatus 404 = false /\
  ui (exec (fetchMovies_resume (axios_settle (Reply (mkResponse 404 None)))) initial_world) =
  mkAppState [] None "" unexpectedErrorMsg false.
Proof.
  split; [reflexivity|].
  apply (fetchMovies_http_error (mkResponse 404 None) initial_world). reflexivity.
Defined.

(** C21: a 2xx answer whose test on line 27 is falsy (a status other than
    200, or no [results]) sets "No movies found." and keeps the list. *)
Theorem fetchMovies_no_results (resp : HttpResponse Movie) (w : World) :
  validateStatus (status resp) = true ->
  (status resp <> 200%Z \/ exists body, data resp = Some body /\ results body = None) ->
  ui (exec (fetchMovies_resume (axios_settle (Reply resp))) w) =
  mkAppState (movies (ui w)) (selectedMovie (ui w)) (searchQuery (ui w)) noMoviesMsg false.
Proof.
  intros Hv Hno. by rewrite fetchMovies_resume_effect, outcome_no_results.
Qed.

Lemma fetchMovies_no_results_witness :
  validateStatus 204 = true /\
  ui (exec (fetchMovies_resume (axios_settle (Reply (mkResponse 204 None)))) initial_world) =
  mkAppState [] None "" noMoviesMsg false.
Proof.
  split; [reflexivity|].
  apply (fetchMovies_no_results (mkResponse 204 None) initial_world); [reflexivity|].
  left. simpl. lia.
Defined.

(** C22: a 200 answer with a [null] body makes line 27 throw a [TypeError];
    having no [response], it is reported as a network error, although the
    network worked. *)
Theorem fetchMovies_null_body (resp : HttpResponse Movie) (w : World) :
  status resp = 200%Z -> data resp = None ->
  errorMessage (ui (exec (fetchMovies_resume (axios_settle (Reply resp))) w)) = networkErrorMsg.
Proof.
  intros Hs Hd. by rewrite fetchMovies_resume_effect, outcome_null_body.
Qed.

Lemma fetchMovies_null_body_witness :
  errorMessage (ui (exec (fetchMovies_resume (axios_settle (Reply (mkResponse 200 None))))
                      initial_world)) = networkErrorMsg.
Proof. apply (fetchMovies_null_body (mkResponse 200 None)); reflexivity. Defined.

End Catalog.

#[export] Hint Resolve Catalog.classify_error_known : app.
