(* ===== verification/Search.v ===== *)
(** * The search controller: [handleSearchChange] (App.jsx lines 49-114)

    On every change of the input the handler stores the query and sets
    [loading] ([handleSearchChange_start]).  For the empty query it sends
    the popular-list request and continues with [reset_resume] (lines
    63-79); otherwise it sends the search request and continues with
    [search_resume] (lines 92-113).  Both continuations use the [catch] of
    the catalog loader and a [finally] that clears [loading]. *)
From S2P Require Import Prelude Api State Flow Catalog.

Open Scope string_scope.

Module Search.

Definition handleSearchChange_start (query : string) : M Pending :=
  setSearchQuery query ;;
  if bool_decide (query = "") then
    setLoading true ;;
    mret PReset
  else
    setLoading true ;;
    mret (PSearch query).

(** The empty-query branch: unlike [fetchMovies] it has no [else], so a
    falsy test leaves the message alone. *)
Definition reset_resume (r : AxiosResult Movie) : M unit :=
  try_finally
    (try_catch
       (response ← await_result r;
        res ← ok_results response;
        match res with
        | Some l => setMovies l ;; setErrorMessage ""
        | None => mret ()
        end)
       Catalog.report_error)
    (setLoading false).

Definition search_resume (r : AxiosResult Movie) : M unit :=
  try_finally
    (try_catch
       (response ← await_result r;
        res ← ok_results response;
        match res with
        | Some l =>
            if (length l =? 0)%nat then setErrorMessage noMoviesMsg
            else setMovies l ;; setErrorMessage ""
        | None => setErrorMessage noMoviesMsg
        end)
       Catalog.report_error)
    (setLoading false).

(** What each continuation does, branch by branch. *)
Definition reset_effect (o : ListOutcome Movie) : ListEffect :=
  match o with
  | Results l => Replace l
  | NoResults => Keep
  | Failed e => Report (Catalog.classify_error e)
  end.

Definition search_effect (o : ListOutcome Movie) : ListEffect :=
  match o with
  | Results l => if (length l =? 0)%nat then Report noMoviesMsg else Replace l
  | NoResults => Report noMoviesMsg
  | Failed e => Report (Catalog.classify_error e)
  end.

(** Two results of a search for "batman", for the scenarios. *)
Definition batman_begins : Movie :=
  mkMovie 272 "Batman Begins" (Some "/batman_begins.jpg") (Some "2005-06-10") None.
Definition the_batman : Movie :=
  mkMovie 414906 "The Batman" (Some "/the_batman.jpg") (Some "2022-03-01") None.

(** ** Lemmas the properties share *)

Lemma handleSearchChange_start_run (query : string) (w : World) :
  handleSearchChange_start query w =
  (Ok (if bool_decide (query = "") then PReset else PSearch query),
   mkWorld (mkAppState (movies (ui w)) (selectedMovie (ui w)) query (errorMessage (ui w)) true)
     (console w)).
Proof. unfold handleSearchChange_start. run_M. by case_bool_decide. Qed.

Lemma reset_resume_effect r w :
  ui (exec (reset_resume r) w) = apply_effect (reset_effect (list_outcome r)) (ui w).
Proof.
  unfold reset_resume, exec, try_finally, try_catch.
  rewrite await_ok_results. destruct (list_outcome r); reflexivity.
Qed.

Lemma search_resume_effect r w :
  ui (exec (search_resume r) w) = apply_effect (search_effect (list_outcome r)) (ui w).
Proof.
  unfold search_resume, exec, try_finally, try_catch.
  rewrite await_ok_results. destruct (list_outcome r) as [| |l]; [done|done|].
  cbn. by destruct (length l =? 0)%nat.
Qed.

#[export] Instance handleSearchChange_start_flow query : StartFlow (handleSearchChange_start query).
Proof.
  split. intros w. rewrite handleSearchChange_start_run. do 2 eexists. split; [done|].
  split; [by case_bool_decide|]. do 2 (split; [done|]). intros _. left. by case_bool_decide.
Qed.

#[export] Instance reset_flow : ListFlow reset_resume.
Proof. Catalog.solve_list_flow reset_resume. Qed.

#[export] Instance search_flow : ListFlow search_resume.
Proof. Catalog.solve_list_flow search_resume. Qed.

(** ** Properties of the search controller *)

(** C4: a search answered 200 with a non-empty array replaces the list by
    that array verbatim and clears the message and [loading]. *)
Theorem search_success (l : list Movie) (w : World) :
  l <> [] ->
  ui (exec (search_resume (axios_settle (ok_reply l))) w) =
  mkAppState l (selectedMovie (ui w)) (searchQuery (ui w)) "" false.
Proof.
  intros Hl. rewrite search_resume_effect. autorewrite with app_rw. cbn.
  destruct l; [done|reflexivity].
Qed.

Lemma search_success_witness :
  [batman_begins; the_batman] <> [] /\
  ui (exec (search_resume (axios_settle (ok_reply [batman_begins; the_batman])))
         (snd (handleSearchChange_start "batman" initial_world))) =
  mkAppState [batman_begins; the_batman] None "batman" "" false.
Proof.
  split; [discriminate|].
  apply (search_success [batman_begins; the_batman]). discriminate.
Defined.

(** C5: a search answered with an empty array sets "No movies found." and
    leaves the previous list on screen. *)
Theorem search_empty_results (w : World) :
  ui (exec (search_resume (axios_settle (ok_reply []))) w) =
  mkAppState (movies (ui w)) (selectedMovie (ui w)) (searchQuery (ui w)) noMoviesMsg false.
Proof. rewrite search_resume_effect. by autorewrite with app_rw. Qed.

(** C20: when the query is cleared and the popular list comes back with a
    falsy test (a 2xx status other than 200, or no [results]), the
    empty-query branch sets no message at all: the old message stays,
    where [fetchMovies] reports "No movies found.". *)
Theorem reset_no_results_keeps_message (resp : HttpResponse Movie) (w : World) :
  validateStatus (status resp) = true ->
  (status resp <> 200%Z \/ exists body, data resp = Some body /\ results body = None) ->
  ui (exec (reset_resume (axios_settle (Reply resp))) w) =
  mkAppState (movies (ui w)) (selectedMovie (ui w)) (searchQuery (ui w)) (errorMessage (ui w)) false
  /\ errorMessage (ui (exec (Catalog.fetchMovies_resume (axios_settle (Reply resp))) w)) = noMoviesMsg.
Proof.
  intros Hv Hno.
  by rewrite reset_resume_effect, Catalog.fetchMovies_resume_effect, outcome_no_results.
Qed.

Lemma reset_no_results_keeps_message_witness :
  validateStatus 204 = true /\
  ui (exec (reset_resume (axios_settle (Reply (mkResponse 204 None))))
         (mkWorld (mkAppState [] None "" serverErrorMsg true) [])) =
  mkAppState [] None "" serverErrorMsg false
  /\ errorMessage (ui (exec (Catalog.fetchMovies_resume (axios_settle (Reply (mkResponse 204 None))))
                         (mkWorld (mkAppState [] None "" serverErrorMsg true) []))) = noMoviesMsg.
Proof.
  split; [reflexivity|].
  apply (reset_no_results_keeps_message (mkResponse 204 None)); [reflexivity|].
  left. simpl. lia.
Defined.

(** C18: clearing the query shows the same list as the initial catalog
    fetch would for the same answer, whatever the answer. *)
Theorem reset_same_list_as_catalog (r : AxiosResult Movie) (w : World) :
  movies (ui (exec (reset_resume r) w)) = movies (ui (exec (Catalog.fetchMovies_resume r) w)).
Proof.
  rewrite reset_resume_effect, Catalog.fetchMovies_resume_effect.
  by destruct (list_outcome r).
Qed.

(** C19: the three list flows treat a rejected request identically: same
    message, same list, [loading] cleared. *)
Theorem failures_classified_alike (e : JsError) (w : World) :
  ui (exec (search_resume (Rejected e)) w) = ui (exec (Catalog.fetchMovies_resume (Rejected e)) w)
  /\ ui (exec (reset_resume (Rejected e)) w) = ui (exec (Catalog.fetchMovies_resume (Rejected e)) w).
Proof.
  by rewrite search_resume_effect, reset_resume_effect, Catalog.fetchMovies_resume_effect.
Qed.

End Search.
