(* ===== verification/Detail.v ===== *)
(** * The detail resolver: [handleMovieClick] (App.jsx lines 116-153)

    A click on a card stores the movie as the selection at once and sends
    the videos request ([click_start]).  When the request settles
    ([videos_resume]) the first video of type "Trailer" on "YouTube"
    ([find_trailer]) gives the trailer URL, written into the selection by a
    functional update that spreads whatever the selection is at that
    moment; a failure is only logged.  The Close button (line 215) clears
    the selection ([close_modal]). *)
From S2P Require Import Prelude Api State Flow.

Open Scope string_scope.

Module Detail.

(** [(video) => video.type === "Trailer" && video.site === "YouTube"] *)
Definition is_youtube_trailer (video : Video) : bool :=
  bool_decide (type video = "Trailer") && bool_decide (site video = "YouTube").

(** [response.data.results.find(...)] *)
Definition find_trailer (results : list Video) : option Video :=
  find is_youtube_trailer results.

(** [`${youtubeUrl}${trailer.key}`] *)
Definition trailer_url (trailer : Video) : string := youtubeUrl +:+ key trailer.

Definition click_start (movie : Movie) : M Pending :=
  setSelectedMovie (Some (select movie)) ;;
  mret (PVideos movie).

Definition videos_resume (r : AxiosResult Video) : M unit :=
  try_catch
    (response ← await_result r;
     res ← ok_results response;
     match res with
     | Some l =>
         match find_trailer l with
         | Some trailer =>
             updateSelectedMovie (fun prevState =>
               Some (spread_trailer prevState (TrailerUrl (trailer_url trailer))))
         | None =>
             updateSelectedMovie (fun prevState => Some (spread_trailer prevState TrailerNull))
         end
     | None => updateSelectedMovie (fun prevState => Some (spread_trailer prevState TrailerNull))
     end)
    (fun _ => console_error "Error fetching trailer:").

(** [onClick={() => setSelectedMovie(null)}] *)
Definition close_modal : M unit := setSelectedMovie None.

(** The trailer value the continuation writes, branch by branch; [None]
    when it writes nothing. *)
Definition trailer_of (o : ListOutcome Video) : option Trailer :=
  match o with
  | Failed _ => None
  | NoResults => Some TrailerNull
  | Results l =>
      match find_trailer l with
      | Some trailer => Some (TrailerUrl (trailer_url trailer))
      | None => Some TrailerNull
      end
  end.

(** Data of the spec's scenario: movie 42 and one YouTube trailer. *)
Definition movie42 : Movie := mkMovie 42 "Movie 42" None None None.
Definition trailer_abc123 : Video := mkVideo "Trailer" "YouTube" "abc123".
Definition teaser_xyz : Video := mkVideo "Teaser" "YouTube" "xyz".

(** ** Lemmas the properties share *)

Lemma is_youtube_trailer_true v :
  is_youtube_trailer v = true <-> type v = "Trailer" /\ site v = "YouTube".
Proof. unfold is_youtube_trailer. by rewrite andb_true_iff, !bool_decide_eq_true. Qed.

Lemma is_youtube_trailer_false v :
  is_youtube_trailer v = false <-> ~ (type v = "Trailer" /\ site v = "YouTube").
Proof. rewrite <- is_youtube_trailer_true. destruct (is_youtube_trailer v); intuition congruence. Qed.


Lemma click_start_run movie w :
  click_start movie w =
  (Ok (PVideos movie), mkWorld (mkAppState (movies (ui w)) (Some (select movie)) (searchQuery (ui w))
                                 (errorMessage (ui w)) (loading (ui w))) (console w)).
Proof. reflexivity. Qed.

Lemma videos_resume_effect r w :
  exec (videos_resume r) w =
  match trailer_of (list_outcome r) with
  | Some t =>
      mkWorld (mkAppState (movies (ui w)) (Some (spread_trailer (selectedMovie (ui w)) t))
                 (searchQuery (ui w)) (errorMessage (ui w)) (loading (ui w))) (console w)
  | None => mkWorld (ui w) (console w ++ ["Error fetching trailer:"])
  end.
Proof.
  unfold videos_resume, exec, try_catch. rewrite await_ok_results.
  destruct (list_outcome r) as [| |l]; [done|done|]. cbn.
  by destruct (find_trailer l).
Qed.

#[export] Instance click_start_flow movie : StartFlow (click_start movie).
Proof. split. intros w. rewrite click_start_run. do 2 eexists. by repeat split; [..|right]. Qed.

#[export] Instance videos_flow : TrailerFlow videos_resume.
Proof.
  split. intros r w. unfold videos_resume, exec, try_catch.
  rewrite await_ok_results. destruct (list_outcome r);
    unfold mbind, mret, ST_bind, ST_ret, bind, ret; run_M; split_branches; auto.
Qed.

(** ** Properties of the detail resolver *)

(** C23: [find_trailer] returns the first video, in list order, whose type
    is "Trailer" and whose site is "YouTube": the list splits at it and no
    earlier video has both. *)
Theorem find_trailer_first (l : list Video) (v : Video) :
  find_trailer l = Some v <->
  exists l1 l2, l = (l1 ++ v :: l2)%list /\ type v = "Trailer" /\ site v = "YouTube" /\
    Forall (fun u => ~ (type u = "Trailer" /\ site u = "YouTube")) l1.
Proof.
  unfold find_trailer. rewrite find_Some_iff.
  setoid_rewrite is_youtube_trailer_true. setoid_rewrite <- is_youtube_trailer_false.
  naive_solver.
Qed.

(** C6: after a click on a movie, a 200 answer whose results contain a
    YouTube trailer makes the selection that movie with the trailer URL
    youtubeUrl followed by the first such video's key. *)
Theorem click_then_trailer (movie : Movie) (l : list Video) (v : Video) (w : World) :
  find_trailer l = Some v ->
  selectedMovie (ui (exec (videos_resume (axios_settle (ok_reply l))) (exec (click_start movie) w))) =
  Some (mkSelected (Some movie) (TrailerUrl (youtubeUrl +:+ key v))).
Proof. intros Hf. rewrite videos_resume_effect. cbn. by rewrite Hf. Qed.

Lemma click_then_trailer_witness :
  find_trailer [trailer_abc123] = Some trailer_abc123 /\
  selectedMovie (ui (exec (videos_resume (axios_settle (ok_reply [trailer_abc123])))
                      (exec (click_start movie42) initial_world))) =
  Some (mkSelected (Some movie42) (TrailerUrl (youtubeUrl +:+ "abc123"))).
Proof.
  split; [reflexivity|].
  apply (click_then_trailer movie42 [trailer_abc123] trailer_abc123). reflexivity.
Defined.

(** C7: when no video of the results is a YouTube trailer, the selection gets the
    explicit [null] marker, never stays without a trailer property. *)
Theorem click_no_trailer_null (movie : Movie) (l : list Video) (w : World) :
  Forall (fun u => ~ (type u = "Trailer" /\ site u = "YouTube")) l ->
  selectedMovie (ui (exec (videos_resume (axios_settle (ok_reply l))) (exec (click_start movie) w))) =
  Some (mkSelected (Some movie) TrailerNull).
Proof.
  intros Hno. assert (Hf : find_trailer l = None).
  { apply find_None_iff. eapply Forall_impl; [exact Hno|]. intros u. apply is_youtube_trailer_false. }
  rewrite videos_resume_effect. cbn. by rewrite Hf.
Qed.

Lemma click_no_trailer_null_witness :
  Forall (fun u => ~ (type u = "Trailer" /\ site u = "YouTube")) [teaser_xyz] /\
  selectedMovie (ui (exec (videos_resume (axios_settle (ok_reply [teaser_xyz])))
                      (exec (click_start movie42) initial_world))) =
  Some (mkSelected (Some movie42) TrailerNull).
Proof.
  assert (H : Forall (fun u => ~ (type u = "Trailer" /\ site u = "YouTube")) [teaser_xyz]).
  { repeat constructor. simpl. intros [H _]. discriminate. }
  split; [exact H|]. exact (click_no_trailer_null movie42 [teaser_xyz] initial_world H).
Defined.

(** C24: a failed trailer lookup is only logged: the whole UI state is
    left as it was (no message, the trailer property stays unset). *)
Theorem trailer_failure_silent (e : JsError) (w : World) :
  exec (videos_resume (Rejected e)) w = mkWorld (ui w) (console w ++ ["Error fetching trailer:"]).
Proof. by rewrite videos_resume_effect. Qed.

(** C25: the videos URL is a plain string literal, so the request a click
    sends is the same whichever movie is clicked: the movie id never
    reaches the server. *)
Theorem videos_request_ignores_movie (m1 m2 : Movie) (w1 w2 : World) :
  fst (click_start m1 w1) = Ok (PVideos m1) /\ fst (click_start m2 w2) = Ok (PVideos m2) /\
  request_of (PVideos m1) = request_of (PVideos m2).
Proof. done. Qed.

End Detail.
