(* ===== verification/System.v ===== *)
(** * The event loop: interleaving of the three flows

    The browser runs one task at a time: the mount effect, an input change,
    a click on a card, a click on Close, or the continuation of a handler
    whose request has settled.  Requests settle in any order, and nothing is
    cancelled.  [Sys] holds the world, the suspended handlers keyed by
    request number ([pending], a [gmap]), the next request number and
    whether the effect has run; [step] is one task, [run] a sequence of
    them, [reachable] the states some sequence reaches from the initial
    render.  The invariants are proved from the [ListFlow] and
    [TrailerFlow] laws of the continuations. *)
From stdpp Require Import gmap.
From S2P Require Import Prelude Api State Flow Catalog Search Detail.

Open Scope string_scope.

Module System.

(** The settled promise a continuation receives. *)
Inductive Outcome := OList (r : AxiosResult Movie) | OVideos (r : AxiosResult Video).

Inductive Event :=
  | Mount                      (** [useEffect(() => { fetchMovies() }, [])] *)
  | Input (query : string)     (** [onChange={handleSearchChange}] *)
  | Click (movie : Movie)      (** [onClick={() => handleMovieClick(movie)}] *)
  | Close                      (** [onClick={() => setSelectedMovie(null)}] *)
  | Settle (req : nat) (o : Outcome).

Record Sys := mkSys {
  world : World;
  pending : gmap nat Pending;
  next_req : nat;
  mounted : bool
}.

Definition initial_sys : Sys := mkSys initial_world ∅ 0 false.

(** The continuation of a suspended handler, when the outcome has the
    type its request returns. *)
Definition resume (p : Pending) (o : Outcome) : option (M unit) :=
  match p, o with
  | PCatalog, OList r => Some (Catalog.fetchMovies_resume r)
  | PReset, OList r => Some (Search.reset_resume r)
  | PSearch _, OList r => Some (Search.search_resume r)
  | PVideos _, OVideos r => Some (Detail.videos_resume r)
  | _, _ => None
  end.

(** Run a handler's synchronous prefix and record where it waits. *)
Definition suspend (s : Sys) (c : M Pending) : Sys :=
  match c (world s) with
  | (Ok p, w') => mkSys w' (<[next_req s := p]> (pending s)) (S (next_req s)) (mounted s)
  | (Throw _, w') => mkSys w' (pending s) (next_req s) (mounted s)
  end.

Definition step (s : Sys) (e : Event) : option Sys :=
  match e with
  | Mount =>
      if mounted s then None
      else Some (suspend (mkSys (world s) (pending s) (next_req s) true) Catalog.fetchMovies_start)
  | Input q => if mounted s then Some (suspend s (Search.handleSearchChange_start q)) else None
  | Click m =>
      (** only a rendered card can be clicked *)
      if mounted s && bool_decide (m ∈ movies (ui (world s)))
      then Some (suspend s (Detail.click_start m)) else None
  | Close =>
      (** the button exists only while the modal is shown *)
      match selectedMovie (ui (world s)) with
      | Some _ => Some (mkSys (exec Detail.close_modal (world s)) (pending s) (next_req s) (mounted s))
      | None => None
      end
  | Settle i o =>
      match pending s !! i with
      | Some p =>
          match resume p o with
          | Some c => Some (mkSys (exec c (world s)) (delete i (pending s)) (next_req s) (mounted s))
          | None => None
          end
      | None => None
      end
  end.

Fixpoint run (s : Sys) (es : list Event) : option Sys :=
  match es with
  | [] => Some s
  | e :: es' => match step s e with Some s' => run s' es' | None => None end
  end.

Inductive reachable : Sys -> Prop :=
  | reachable_init : reachable initial_sys
  | reachable_step s e s' : reachable s -> step s e = Some s' -> reachable s'.

(** The state invariant: before the mount effect nothing has happened,
    request numbers are fresh, the message is one of the known texts, and
    [loading] is set only while a list request is in flight. *)
Record sys_inv (s : Sys) : Prop := {
  inv_unmounted : mounted s = false -> s = initial_sys;
  inv_fresh i : next_req s <= i -> pending s !! i = None;
  inv_message : known_message (errorMessage (ui (world s)));
  inv_loading : loading (ui (world s)) = true ->
                exists i p, pending s !! i = Some p /\ is_list_request p = true;
  inv_requests i p : pending s !! i = Some p -> pending_ok p
}.

(** A request as §6 of the specification lists them: the credential and
    the language always; page 1 and, for a search, a non-empty query on
    the list endpoints; the videos endpoint otherwise. *)
Definition wf_request (r : Request) : Prop :=
  In ("api_key", PStr apiKey) (params r) /\ In ("language", PStr "en-US") (params r) /\
  ((url r = apiUrl /\ In ("page", PNum 1) (params r)) \/
   (url r = searchUrl /\ In ("page", PNum 1) (params r) /\
      exists q, q <> "" /\ In ("query", PStr q) (params r)) \/
   url r = videosUrl).

(** ** Concrete runs used by the witnesses *)

Definition movieA : Movie := mkMovie 1 "A" None None None.
Definition movieB : Movie := mkMovie 2 "B" None None None.
Definition trailerA : Video := mkVideo "Trailer" "YouTube" "keyA".

Definition state_after (es : list Event) : Sys := default initial_sys (run initial_sys es).

(** Mount, the catalog arrives, then "a" and "ab" are typed: two searches
    are in flight (requests 1 and 2). *)
Definition two_searches : list Event :=
  [Mount; Settle 0 (OList (axios_settle (ok_reply [movieA; movieB]))); Input "a"; Input "ab"].

(** ... and the answer to "ab" arrives first. *)
Definition newer_answered : list Event :=
  two_searches ++ [Settle 2 (OList (axios_settle (ok_reply [movieB])))].

(** A click on A, then Close before the trailer arrives. *)
Definition click_close : list Event :=
  [Mount; Settle 0 (OList (axios_settle (ok_reply [movieA; movieB]))); Click movieA; Close].

(** A click on A, then a click on B before A's trailer arrives. *)
Definition click_click : list Event :=
  [Mount; Settle 0 (OList (axios_settle (ok_reply [movieA; movieB]))); Click movieA; Click movieB].

(** ** Lemmas *)

Lemma resume_list p r c :
  resume p (OList r) = Some c -> is_list_request p = true /\ exists f, ListFlow f /\ c = f r.
Proof.
  destruct p; simpl; intros Hc; simplify_eq; split; try done;
    eexists; (split; [|reflexivity]);
    first [apply Catalog.fetchMovies_flow | apply Search.reset_flow | apply Search.search_flow].
Qed.

Lemma resume_videos p r c :
  resume p (OVideos r) = Some c -> is_list_request p = false /\ c = Detail.videos_resume r.
Proof. destruct p; simpl; intros Hc; simplify_eq; done. Qed.

Lemma inv_suspend s c :
  sys_inv s -> mounted s = true -> StartFlow c -> sys_inv (suspend s c).
Proof.
  intros [_ Hfresh Hmsg Hload Hreq] Hm [Hc].
  destruct (Hc (world s)) as (p & w' & Hrun & Hok & _ & Herr & Hl).
  unfold suspend. rewrite Hrun. split; simpl.
  - congruence.
  - intros i Hi. rewrite lookup_insert_ne; [apply Hfresh|]; lia.
  - by rewrite Herr.
  - intros Hl'. destruct (Hl Hl') as [Hp | Hold].
    + exists (next_req s), p. by rewrite lookup_insert_eq.
    + destruct (Hload Hold) as (j & q & Hj & Hq). exists j, q. split; [|done].
      rewrite lookup_insert_ne; [done|]. intros Heq. subst j.
      rewrite Hfresh in Hj; [discriminate|lia].
  - intros i q. rewrite lookup_insert_Some. intros [[_ <-]|[_ Hi]]; eauto.
Qed.

Lemma inv_settle s i p o c :
  sys_inv s -> pending s !! i = Some p -> resume p o = Some c ->
  sys_inv (mkSys (exec c (world s)) (delete i (pending s)) (next_req s) (mounted s)).
Proof.
  intros [Hinit Hfresh Hmsg Hload Hreq] Hi Hc. split; simpl.
  - intros Hm. specialize (Hinit Hm). subst s. simpl in Hi. by rewrite lookup_empty in Hi.
  - intros j Hj. apply lookup_delete_None. right. by apply Hfresh.
  - destruct o as [r|r].
    + destruct (resume_list _ _ _ Hc) as (_ & f & Hf & ->). by apply list_flow_message.
    + destruct (resume_videos _ _ _ Hc) as (_ & ->).
      by destruct (@trailer_flow_frame _ Detail.videos_flow r (world s)) as (_ & _ & -> & _).
  - destruct o as [r|r].
    + destruct (resume_list _ _ _ Hc) as (_ & f & Hf & ->). by rewrite list_flow_loading.
    + destruct (resume_videos _ _ _ Hc) as (Hp & ->).
      destruct (@trailer_flow_frame _ Detail.videos_flow r (world s)) as (_ & _ & _ & ->).
      intros Hl. destruct (Hload Hl) as (j & q & Hj & Hq). exists j, q. split; [|done].
      rewrite lookup_delete_ne; [done|]. intros ->. congruence.
  - intros j q. rewrite lookup_delete_Some. intros [_ Hj]. eauto.
Qed.

Lemma inv_close s :
  sys_inv s ->
  sys_inv (mkSys (exec Detail.close_modal (world s)) (pending s) (next_req s) (mounted s)).
Proof.
  intros [Hinit Hfresh Hmsg Hload Hreq]. split; simpl; try done.
  intros Hm. by rewrite (Hinit Hm).
Qed.

Lemma inv_mounted_initial : sys_inv (mkSys initial_world ∅ 0 true).
Proof. split; simpl; try done; auto with app. Qed.

Lemma step_inv s e s' : sys_inv s -> step s e = Some s' -> sys_inv s'.
Proof.
  intros Hinv Hstep. destruct e as [|q|m| |i o]; simpl in Hstep.
  - destruct (mounted s) eqn:Hm; [discriminate|]. injection Hstep as <-.
    rewrite (inv_unmounted _ Hinv Hm).
    apply inv_suspend; [apply inv_mounted_initial|done|apply Catalog.fetchMovies_start_flow].
  - destruct (mounted s) eqn:Hm; [|discriminate]. injection Hstep as <-.
    apply inv_suspend; [done|done|apply Search.handleSearchChange_start_flow].
  - destruct (mounted s) eqn:Hm; [|discriminate]. case_bool_decide; [|discriminate].
    injection Hstep as <-. apply inv_suspend; [done|done|apply Detail.click_start_flow].
  - destruct (selectedMovie _); [|discriminate]. injection Hstep as <-. by apply inv_close.
  - destruct (pending s !! i) as [p|] eqn:Hi; [|discriminate].
    destruct (resume p o) as [c|] eqn:Hc; [|discriminate].
    injection Hstep as <-. by eapply inv_settle.
Qed.

Lemma reachable_inv s : reachable s -> sys_inv s.
Proof.
  induction 1 as [|s e s' _ IH Hstep]; [|by eapply step_inv].
  split; simpl; try done; auto with app.
Qed.

Lemma run_reachable s es s' : reachable s -> run s es = Some s' -> reachable s'.
Proof.
  revert s. induction es as [|e es IH]; simpl; intros s Hr Hrun; [congruence|].
  destruct (step s e) as [s1|] eqn:Hs; [|discriminate]. eauto using reachable.
Qed.

Lemma state_after_reachable es : is_Some (run initial_sys es) -> reachable (state_after es).
Proof.
  intros [s Hs]. unfold state_after. rewrite Hs. eauto using run_reachable, reachable.
Qed.

(** A keystroke with a non-empty text in a mounted page records a search
    for that text under the next request number. *)
Lemma input_step s q :
  mounted s = true -> q <> "" ->
  step s (Input q) = Some (mkSys (snd (Search.handleSearchChange_start q (world s)))
                          (<[next_req s := PSearch q]> (pending s)) (S (next_req s)) (mounted s)).
Proof.
  intros Hm Hq. cbn [step]. unfold suspend. rewrite Hm.
  pose proof (Search.handleSearchChange_start_run q (world s)) as Hrun.
  rewrite bool_decide_false in Hrun by done. by rewrite Hrun.
Qed.

(** Typing non-empty texts into a mounted page leaves the requests that
    were in flight and adds one search per keystroke, numbered in order. *)
Lemma typing_searches qs s :
  sys_inv s -> mounted s = true -> Forall (fun q => q <> "") qs ->
  exists s', run s (map Input qs) = Some s' /\ sys_inv s' /\
    next_req s' = length qs + next_req s /\
    (forall j, j < next_req s -> pending s' !! j = pending s !! j) /\
    (forall k q, qs !! k = Some q -> pending s' !! (next_req s + k) = Some (PSearch q)) /\
    size (pending s') = length qs + size (pending s).
Proof.
  revert s. induction qs as [|q qs IH]; intros s Hinv Hm Hqs.
  { exists s. split_and!; [done..| |done]. intros k q. by rewrite lookup_nil. }
  inversion Hqs as [|? ? Hq Hqs']; subst.
  pose proof (input_step s q Hm Hq) as Hstep.
  pose proof (inv_fresh _ Hinv (next_req s) (le_n _)) as Hfresh.
  destruct (IH _ (step_inv _ _ _ Hinv Hstep) Hm Hqs')
    as (s' & Hrun & Hinv' & Hnext & Hold & Hnew & Hsize); cbn [pending next_req] in *.
  exists s'. split; [cbn [map run]; by rewrite Hstep|]. split; [done|]. split; [simpl; lia|].
  split; [|split].
  - intros j Hj. rewrite Hold by lia. apply lookup_insert_ne. lia.
  - intros [|k] q' Hk; simpl in Hk.
    + injection Hk as <-. rewrite Nat.add_0_r, Hold by lia. apply lookup_insert_eq.
    + rewrite Nat.add_succ_r. exact (Hnew k q' Hk).
  - rewrite Hsize, map_size_insert_None by done. simpl. lia.
Qed.

(** ** Properties of the event loop *)

(** C9: in every reachable state the message shown is empty or one of
    the four texts of the code. *)
Theorem error_message_known (s : Sys) :
  reachable s -> known_message (errorMessage (ui (world s))).
Proof. intros Hr. apply (inv_message _ (reachable_inv _ Hr)). Qed.

Lemma error_message_known_witness :
  reachable (state_after [Mount; Settle 0 (OList (axios_settle NoReply))]) /\
  known_message (errorMessage (ui (world (state_after [Mount; Settle 0 (OList (axios_settle NoReply))])))).
Proof.
  assert (Hr : reachable (state_after [Mount; Settle 0 (OList (axios_settle NoReply))]))
    by (apply state_after_reachable; vm_compute; eauto).
  split; [exact Hr|]. apply error_message_known. exact Hr.
Defined.

(** C8: in every reachable state with no list request in flight (only
    trailer lookups, or nothing), [loading] is false: the spinner never
    stays on once the list requests have settled. *)
Theorem loading_off_when_no_list_request (s : Sys) :
  reachable s ->
  (forall i p, pending s !! i = Some p -> is_list_request p = false) ->
  loading (ui (world s)) = false.
Proof.
  intros Hr Hnone. destruct (loading _) eqn:Hl; [|done].
  destruct (inv_loading _ (reachable_inv _ Hr) Hl) as (i & p & Hi & Hp).
  by rewrite (Hnone _ _ Hi) in Hp.
Qed.

Lemma loading_off_when_no_list_request_witness :
  reachable (state_after (click_close)) /\
  (forall i p, pending (state_after click_close) !! i = Some p -> is_list_request p = false) /\
  loading (ui (world (state_after click_close))) = false.
Proof.
  assert (Hr : reachable (state_after click_close)) by (apply state_after_reachable; vm_compute; eauto).
  assert (Hp : forall i p, pending (state_after click_close) !! i = Some p -> is_list_request p = false).
  { assert (He : pending (state_after click_close) = {[1 := PVideos movieA]}) by (vm_compute; reflexivity).
    rewrite He. intros i p Hi. apply lookup_singleton_Some in Hi as [_ <-]. reflexivity. }
  split; [exact Hr|]. split; [exact Hp|].
  exact (loading_off_when_no_list_request _ Hr Hp).
Defined.

(** C16: every settlement of a list request clears [loading], even when
    another list request is still in flight: [loading] is not tied to the
    request that set it. *)
Theorem settle_list_clears_loading (s s' : Sys) (i : nat) (r : AxiosResult Movie) :
  step s (Settle i (OList r)) = Some s' -> loading (ui (world s')) = false.
Proof.
  simpl. destruct (pending s !! i) as [p|]; [|discriminate].
  destruct (resume p (OList r)) as [c|] eqn:Hc; [|discriminate]. intros [= <-]. simpl.
  destruct (resume_list _ _ _ Hc) as (_ & f & Hf & ->). apply list_flow_loading.
Qed.

Lemma settle_list_clears_loading_witness :
  step (state_after two_searches) (Settle 1 (OList (axios_settle (ok_reply [movieA])))) =
    Some (state_after (two_searches ++ [Settle 1 (OList (axios_settle (ok_reply [movieA])))])) /\
  loading (ui (world (state_after (two_searches ++ [Settle 1 (OList (axios_settle (ok_reply [movieA])))])))) = false /\
  pending (state_after (two_searches ++ [Settle 1 (OList (axios_settle (ok_reply [movieA])))])) !! 2 =
    Some (PSearch "ab").
Proof.
  assert (H : step (state_after two_searches) (Settle 1 (OList (axios_settle (ok_reply [movieA])))) =
    Some (state_after (two_searches ++ [Settle 1 (OList (axios_settle (ok_reply [movieA])))])))
    by (vm_compute; reflexivity).
  split; [exact H|]. split; [|vm_compute; reflexivity].
  exact (settle_list_clears_loading _ _ _ _ H).
Defined.

(** C27: no continuation ever ends in an exception, whatever the request
    returned: every failure is caught, so no promise of the component is
    left rejected. *)
Theorem continuations_never_throw (p : Pending) (o : Outcome) (c : M unit) :
  resume p o = Some c -> total c.
Proof.
  destruct p, o; simpl; intros Hc; simplify_eq;
    unfold Catalog.fetchMovies_resume, Search.reset_resume, Search.search_resume,
      Detail.videos_resume, Catalog.report_error, console_error, setErrorMessage, setLoading, set_ui;
    auto 10 with app.
Qed.

Lemma continuations_never_throw_witness :
  resume PCatalog (OList (axios_settle NoReply)) =
    Some (Catalog.fetchMovies_resume (axios_settle NoReply)) /\
  total (Catalog.fetchMovies_resume (axios_settle NoReply)).
Proof.
  split; [reflexivity|]. by apply (continuations_never_throw PCatalog (OList (axios_settle NoReply))).
Defined.

(** C17: the mount effect runs once, first: the only reachable state in
    which [Mount] is enabled is the initial one, and it leaves exactly the
    popular-list request in flight with [loading] set. *)
Theorem catalog_requested_once_at_mount (s s' : Sys) :
  reachable s -> step s Mount = Some s' ->
  s = initial_sys /\ pending s' = {[0 := PCatalog]} /\ request_of PCatalog = popular_request /\
  loading (ui (world s')) = true.
Proof.
  intros Hr Hstep. simpl in Hstep. destruct (mounted s) eqn:Hm; [discriminate|].
  pose proof (inv_unmounted _ (reachable_inv _ Hr) Hm) as ->.
  injection Hstep as <-. done.
Qed.

Lemma catalog_requested_once_at_mount_witness :
  reachable initial_sys /\ step initial_sys Mount = Some (state_after [Mount]) /\
  initial_sys = initial_sys /\ pending (state_after [Mount]) = {[0 := PCatalog]} /\
  request_of PCatalog = popular_request /\ loading (ui (world (state_after [Mount]))) = true.
Proof.
  assert (Hs : step initial_sys Mount = Some (state_after [Mount])) by reflexivity.
  split; [apply reachable_init|]. split; [exact Hs|].
  exact (catalog_requested_once_at_mount _ _ reachable_init Hs).
Defined.

(** C29: every request in flight in a reachable state is one the
    specification lists (§6): it carries the credential and the language,
    list requests ask for page 1, and a search is never sent for the empty
    query. *)
Theorem requests_well_formed (s : Sys) (i : nat) (p : Pending) :
  reachable s -> pending s !! i = Some p -> wf_request (request_of p).
Proof.
  intros Hr Hi. pose proof (inv_requests _ (reachable_inv _ Hr) _ _ Hi) as Hok.
  unfold wf_request. destruct p as [| |q|m]; simpl in *; naive_solver.
Qed.

Lemma requests_well_formed_witness :
  reachable (state_after two_searches) /\
  pending (state_after two_searches) !! 2 = Some (PSearch "ab") /\
  wf_request (request_of (PSearch "ab")).
Proof.
  assert (Hr : reachable (state_after two_searches)) by (apply state_after_reachable; vm_compute; eauto).
  assert (Hi : pending (state_after two_searches) !! 2 = Some (PSearch "ab")) by (vm_compute; reflexivity).
  split; [exact Hr|]. split; [exact Hi|]. exact (requests_well_formed _ _ _ Hr Hi).
Defined.

(** C30: nothing debounces or cancels the searches: typing non-empty texts
    into the mounted page leaves every request that was in flight and adds
    one search per keystroke, each for the text typed at that keystroke, so
    the requests in flight grow with the number of keystrokes. *)
Theorem every_keystroke_searched (s : Sys) (qs : list string) :
  reachable s -> mounted s = true -> Forall (fun q => q <> "") qs ->
  exists s', run s (map Input qs) = Some s' /\
    (forall k q, qs !! k = Some q -> pending s' !! (next_req s + k) = Some (PSearch q)) /\
    size (pending s') = length qs + size (pending s).
Proof.
  intros Hr Hm Hqs.
  destruct (typing_searches qs s (reachable_inv _ Hr) Hm Hqs) as (s' & Hrun & _ & _ & _ & Hnew & Hsize).
  by exists s'.
Qed.

Lemma every_keystroke_searched_witness :
  reachable (state_after [Mount]) /\ mounted (state_after [Mount]) = true /\
  Forall (fun q => q <> "") ["a"; "ab"] /\
  exists s', run (state_after [Mount]) (map Input ["a"; "ab"]) = Some s' /\
    (forall k q, ["a"; "ab"] !! k = Some q ->
       pending s' !! (next_req (state_after [Mount]) + k) = Some (PSearch q)) /\
    size (pending s') = length ["a"; "ab"] + size (pending (state_after [Mount])).
Proof.
  assert (Hr : reachable (state_after [Mount])) by (apply state_after_reachable; vm_compute; eauto).
  assert (Hm : mounted (state_after [Mount]) = true) by (vm_compute; reflexivity).
  assert (Hq : Forall (fun q => q <> "") ["a"; "ab"]) by (repeat constructor; discriminate).
  split; [exact Hr|]. split; [exact Hm|]. split; [exact Hq|].
  exact (every_keystroke_searched _ _ Hr Hm Hq).
Defined.

End System.
