(* ===== verification/View.v ===== *)
(** * The render function (App.jsx lines 155-224)

    What the JSX shows for a state: the controlled input, the error line
    ([{errorMessage && <p>...}]: shown when the message is not [""]), the
    loading line, one card per movie in list order, and the modal while
    [selectedMovie] is not [null], with an iframe when its [trailerUrl] is
    truthy.  Image sources are template literals, so a [null] poster path
    becomes the text ["null"] and a missing one ["undefined"]. *)
From S2P Require Import Prelude Api State Detail.

Open Scope string_scope.

Module View.

Definition imageBase : string := "https://image.tmdb.org/t/p/w500".

(** [`${x}`] for a property that is a string or [null]. *)
Definition tmpl_nullable (o : option string) : string :=
  match o with Some s => s | None => "null" end.

Record Card := mkCard {
  card_key : Z;                 (** [key={movie.id}] *)
  card_img : string;            (** [src={`...w500${movie.poster_path}`}] *)
  card_title : string;          (** [{movie.title}] *)
  card_date : option string     (** [{movie.release_date}] *)
}.

Record Modal := mkModal {
  modal_title : option string;     (** [{selectedMovie.title}], nothing when undefined *)
  modal_img : string;
  modal_overview : option string;
  modal_iframe : option string     (** the iframe's [src], when it is rendered *)
}.

Record Screen := mkScreen {
  input_value : string;            (** [value={searchQuery}] *)
  error_line : option string;
  loading_line : bool;
  cards : list Card;
  modal : option Modal
}.

Definition render_card (movie : Movie) : Card :=
  mkCard (id movie) (imageBase +:+ tmpl_nullable (poster_path movie)) (title movie)
    (release_date movie).

(** [{selectedMovie.trailerUrl && <iframe src={selectedMovie.trailerUrl} />}]:
    an unset or [null] property and the empty string are falsy. *)
Definition iframe_src (t : Trailer) : option string :=
  match t with
  | TrailerUrl u => if bool_decide (u = "") then None else Some u
  | _ => None
  end.

Definition render_modal (sel : Selected) : Modal :=
  match sel_movie sel with
  | Some m => mkModal (Some (title m)) (imageBase +:+ tmpl_nullable (poster_path m)) (overview m)
                (iframe_src (trailerUrl sel))
  | None => mkModal None (imageBase +:+ "undefined") None (iframe_src (trailerUrl sel))
  end.

Definition render (s : AppState) : Screen :=
  mkScreen (searchQuery s)
    (if bool_decide (errorMessage s = "") then None else Some (errorMessage s))
    (loading s)
    (map render_card (movies s))
    (option_map render_modal (selectedMovie s)).

(** A movie without a poster. *)
Definition no_poster : Movie := mkMovie 7 "No Poster" None None None.

(** ** Lemmas the properties share *)

Lemma iframe_src_trailer_url v : iframe_src (TrailerUrl (Detail.trailer_url v)) = Some (Detail.trailer_url v).
Proof.
  unfold iframe_src. rewrite bool_decide_false; [done|].
  apply append_nonempty_l. discriminate.
Qed.

(** ** Properties of the render function *)

(** C26: after a click on a movie whose lookup finds a YouTube trailer, the
    modal shows that movie's title and plays youtubeUrl followed by the
    trailer's key; when no trailer is found it shows no player. *)
Theorem render_selected_trailer (movie : Movie) (l : list Video) (w : World) :
  modal (render (ui (exec (Detail.videos_resume (axios_settle (ok_reply l)))
                           (exec (Detail.click_start movie) w)))) =
  Some (mkModal (Some (title movie)) (imageBase +:+ tmpl_nullable (poster_path movie)) (overview movie)
          (option_map Detail.trailer_url (Detail.find_trailer l))).
Proof.
  rewrite Detail.videos_resume_effect. unfold exec at 2. rewrite Detail.click_start_run.
  cbn -[iframe_src Detail.trailer_url].
  destruct (Detail.find_trailer l) as [v|]; [|done].
  cbn -[iframe_src Detail.trailer_url]. by rewrite iframe_src_trailer_url.
Qed.

(** C28: a movie whose [poster_path] is [null] is drawn with the image URL
    ending in "null", and the modal reopened by a late trailer (C14) draws
    one ending in "undefined": no placeholder is used. *)
Theorem render_missing_poster (movie : Movie) (t : Trailer) :
  poster_path movie = None ->
  card_img (render_card movie) = "https://image.tmdb.org/t/p/w500null" /\
  modal_img (render_modal (mkSelected None t)) = "https://image.tmdb.org/t/p/w500undefined".
Proof. intros Hp. unfold render_card. by rewrite Hp. Qed.

Lemma render_missing_poster_witness :
  poster_path no_poster = None /\
  card_img (render_card no_poster) = "https://image.tmdb.org/t/p/w500null" /\
  modal_img (render_modal (mkSelected None TrailerNull)) = "https://image.tmdb.org/t/p/w500undefined".
Proof. split; [reflexivity|]. apply render_missing_poster. reflexivity. Defined.

End View.
