(* ===== verification/Contract.v ===== *)
(** * The contract of the list flows, and how the code refines it

    [contract_effect] is what the specification asks of a settled list
    request (§4.1, §4.2, §7): a successful response with a non-empty
    result array replaces the list and clears the message; a successful
    response whose results are absent or empty reports "No movies found.";
    no response is a network error, a status of 500 or more a server error,
    any other failure an unexpected error.  The same contract holds for the
    catalog loader and both branches of the search controller.

    For each continuation the refinement theorem is exact: the code
    realises the contract on a network reply, in every state, if and only
    if the reply is not one of the divergent replies that [*_agrees]
    lists. *)
From S2P Require Import Prelude Api State Flow Catalog Search.

Open Scope string_scope.

Module Contract.

Definition contract_effect (reply : NetReply Movie) : ListEffect :=
  match reply with
  | NoReply => Report networkErrorMsg
  | Reply resp =>
      if validateStatus (status resp) then
        match data resp with
        | Some (mkBody (Some (m :: ms))) => Replace (m :: ms)
        | _ => Report noMoviesMsg
        end
      else if (500 <=? status resp)%Z then Report serverErrorMsg
      else Report unexpectedErrorMsg
  end.

Definition is_200 (resp : HttpResponse Movie) : bool := (status resp =? 200)%Z.

(** Where [fetchMovies] departs from the contract: a 200 response with a
    [null] body (reported as a network error), a 200 response with an
    empty array (the list is emptied, no message), and a 2xx response
    other than 200 with results (they are not shown). *)
Definition catalog_agrees (reply : NetReply Movie) : bool :=
  match reply with
  | NoReply => true
  | Reply resp =>
      if validateStatus (status resp) then
        match data resp with
        | None => negb (is_200 resp)
        | Some (mkBody (Some [])) => negb (is_200 resp)
        | Some (mkBody (Some (_ :: _))) => is_200 resp
        | Some (mkBody None) => true
        end
      else true
  end.

(** The search branch checks [length === 0], so only the [null] body and
    the non-200 success remain. *)
Definition search_agrees (reply : NetReply Movie) : bool :=
  match reply with
  | NoReply => true
  | Reply resp =>
      if validateStatus (status resp) then
        match data resp with
        | None => negb (is_200 resp)
        | Some (mkBody (Some (_ :: _))) => is_200 resp
        | Some (mkBody _) => true
        end
      else true
  end.

(** The empty-query branch has no [else]: besides the catalog's cases,
    every success without a usable array leaves the message unchanged. *)
Definition reset_agrees (reply : NetReply Movie) : bool :=
  match reply with
  | NoReply => true
  | Reply resp =>
      if validateStatus (status resp) then
        match data resp with
        | Some (mkBody (Some (_ :: _))) => is_200 resp
        | _ => false
        end
      else true
  end.

(** The contract's effects are all visible: a non-empty list, or a
    non-empty message. *)
Definition visible (eff : ListEffect) : Prop :=
  match eff with
  | Replace l => l <> []
  | Report m => m <> ""
  | Keep => False
  end.

(** ** Lemmas *)

Lemma contract_visible reply : visible (contract_effect reply).
Proof.
  destruct reply as [|[st [[[[|m l]|]]|]]]; simpl;
    repeat case_match; simpl; try discriminate.
Qed.

(** Two effects agree in every state exactly when they are equal, as soon
    as the second is visible: the initial state tells them apart. *)
Lemma effects_agree_iff (e1 e2 : ListEffect) :
  visible e2 -> (forall w, apply_effect e1 (ui w) = apply_effect e2 (ui w)) <-> e1 = e2.
Proof.
  intros Hv. split; [|by intros ->].
  intros H. specialize (H initial_world).
  destruct e1, e2; simpl in *; try done; simplify_eq; try done;
    try (injection H; intros; subst; done).
Qed.

Ltac decide_reply :=
  intros [|[st [[[[|m l]|]]|]]]; cbn;
  unfold is_200; cbn;
  repeat (case_match; cbn); split; intros; simplify_eq; try done.

Lemma catalog_effect_agrees reply :
  Catalog.catalog_effect (list_outcome (axios_settle reply)) = contract_effect reply <->
  catalog_agrees reply = true.
Proof. revert reply. decide_reply. Qed.

Lemma search_effect_agrees reply :
  Search.search_effect (list_outcome (axios_settle reply)) = contract_effect reply <->
  search_agrees reply = true.
Proof. revert reply. decide_reply. Qed.

Lemma reset_effect_agrees reply :
  Search.reset_effect (list_outcome (axios_settle reply)) = contract_effect reply <->
  reset_agrees reply = true.
Proof. revert reply. decide_reply. Qed.

(** ** Refinement theorems *)

(** C10: [fetchMovies] realises the contract of §4.1 and §7, in every
    state, exactly on the replies [catalog_agrees] accepts: everywhere but
    a 200 with a [null] body, a 200 with an empty array, and a non-200
    success with results. *)
Theorem catalog_refines_contract (reply : NetReply Movie) :
  (forall w, ui (exec (Catalog.fetchMovies_resume (axios_settle reply)) w) =
             apply_effect (contract_effect reply) (ui w))
  <-> catalog_agrees reply = true.
Proof.
  setoid_rewrite Catalog.fetchMovies_resume_effect.
  rewrite effects_agree_iff by apply contract_visible. apply catalog_effect_agrees.
Qed.

(** C11: the search branch realises the contract of §4.2 exactly on the
    replies [search_agrees] accepts: everywhere but a 200 with a [null]
    body and a non-200 success with results. *)
Theorem search_refines_contract (reply : NetReply Movie) :
  (forall w, ui (exec (Search.search_resume (axios_settle reply)) w) =
             apply_effect (contract_effect reply) (ui w))
  <-> search_agrees reply = true.
Proof.
  setoid_rewrite Search.search_resume_effect.
  rewrite effects_agree_iff by apply contract_visible. apply search_effect_agrees.
Qed.

(** C12: the empty-query branch, which the specification says behaves as
    the catalog loader, realises the contract only on failures and on a
    200 with a non-empty array: every other success leaves the message as
    it was. *)
Theorem reset_refines_contract (reply : NetReply Movie) :
  (forall w, ui (exec (Search.reset_resume (axios_settle reply)) w) =
             apply_effect (contract_effect reply) (ui w))
  <-> reset_agrees reply = true.
Proof.
  setoid_rewrite Search.reset_resume_effect.
  rewrite effects_agree_iff by apply contract_visible. apply reset_effect_agrees.
Qed.

End Contract.
