(* ===== verification/Ordering.v ===== *)
(** * Ordering of events: which answer and which input the screen shows

    The event loop applies every answer when it arrives and cancels
    nothing.  This file states what the screen shows after a sequence of
    events: the search box always shows the last text typed, the list is
    the last list answer that arrived, and the consequences for the
    trailer lookups (a stale search answer wins, a late trailer reopens a
    closed modal or lands on another movie). *)
From stdpp Require Import gmap.
From S2P Require Import Prelude Api State Flow Catalog Search Detail System View.

Open Scope string_scope.

Module Ordering.

Import System.

(** An event that is not a keystroke in the search box. *)
Definition no_input (e : Event) : Prop := match e with Input _ => False | _ => True end.

(** An event that is not the arrival of a list answer. *)
Definition no_list_answer (e : Event) : Prop :=
  match e with Settle _ (OList _) => False | _ => True end.

(** ** Lemmas *)

(** A quantity that no step of a given kind changes is left unchanged by a
    run made of such steps. *)
Section RunPreserves.
Context {A : Type} (P : Event -> Prop) (g : Sys -> A).
Hypothesis step_preserves : forall s e s', P e -> step s e = Some s' -> g s' = g s.

Lemma run_preserves s es s' : Forall P es -> run s es = Some s' -> g s' = g s.
Proof.
  revert s. induction es as [|e es IH]; intros s Hes Hrun; simpl in Hrun; [congruence|].
  inversion Hes as [|? ? He Hes']; subst.
  destruct (step s e) as [s1|] eqn:Hstep; [|discriminate].
  rewrite (IH _ Hes' Hrun). eauto.
Qed.
End RunPreserves.

Lemma suspend_frame s c :
  StartFlow c -> movies (ui (world (suspend s c))) = movies (ui (world s)).
Proof.
  intros [Hc]. destruct (Hc (world s)) as (p & w' & Hrun & _ & Hmov & _).
  unfold suspend. by rewrite Hrun.
Qed.

(** The answer of a trailer lookup touches neither the query nor the list. *)
Lemma settle_videos_frame s i r s' :
  step s (Settle i (OVideos r)) = Some s' ->
  searchQuery (ui (world s')) = searchQuery (ui (world s)) /\ movies (ui (world s')) = movies (ui (world s)).
Proof.
  simpl. destruct (pending s !! i) as [p|]; [|discriminate].
  destruct (resume p (OVideos r)) as [c|] eqn:Hc; [|discriminate]. intros [= <-]. simpl.
  destruct (resume_videos _ _ _ Hc) as (_ & ->).
  by destruct (@trailer_flow_frame _ Detail.videos_flow r (world s)) as (-> & -> & _).
Qed.

Lemma step_keeps_query s e s' :
  no_input e -> step s e = Some s' -> searchQuery (ui (world s')) = searchQuery (ui (world s)).
Proof.
  intros Hno Hstep. destruct e as [|q|m| |i [r|r]]; try done.
  - simpl in Hstep. destruct (mounted s); [discriminate|]. injection Hstep as <-.
    unfold suspend. by rewrite Catalog.fetchMovies_start_run.
  - simpl in Hstep. destruct (_ && _); [|discriminate]. injection Hstep as <-.
    unfold suspend. by rewrite Detail.click_start_run.
  - simpl in Hstep. destruct (selectedMovie _); [|discriminate]. by injection Hstep as <-.
  - simpl in Hstep. destruct (pending s !! i) as [p|]; [|discriminate].
    destruct (resume p (OList r)) as [c|] eqn:Hc; [|discriminate]. injection Hstep as <-.
    destruct (resume_list _ _ _ Hc) as (_ & f & Hf & ->). apply list_flow_query.
  - apply (settle_videos_frame _ _ _ _ Hstep).
Qed.

Lemma step_keeps_movies s e s' :
  no_list_answer e -> step s e = Some s' -> movies (ui (world s')) = movies (ui (world s)).
Proof.
  intros Hno Hstep. destruct e as [|q|m| |i [r|r]]; try done; simpl in Hstep.
  - destruct (mounted s); [discriminate|]. injection Hstep as <-.
    exact (suspend_frame (mkSys (world s) (pending s) (next_req s) true) _
             Catalog.fetchMovies_start_flow).
  - destruct (mounted s); [|discriminate]. injection Hstep as <-.
    apply suspend_frame, Search.handleSearchChange_start_flow.
  - destruct (_ && _); [|discriminate]. injection Hstep as <-.
    apply suspend_frame, Detail.click_start_flow.
  - destruct (selectedMovie _); [|discriminate]. by injection Hstep as <-.
  - apply (settle_videos_frame s i r s'). simpl. exact Hstep.
Qed.

(** A non-empty answer to any list request becomes the list, whichever of
    the three continuations receives it. *)
Lemma list_answer_movies s i l s' :
  l <> [] -> step s (Settle i (OList (axios_settle (ok_reply l)))) = Some s' ->
  movies (ui (world s')) = l.
Proof.
  intros Hl. simpl. destruct (pending s !! i) as [p|]; [|discriminate].
  destruct p; cbn [resume]; intros [= <-]; cbn [world];
    rewrite ?Catalog.fetchMovies_resume_effect, ?Search.reset_resume_effect,
      ?Search.search_resume_effect; cbn; by destruct l.
Qed.

(** ** Properties *)

(** C13: a search answer is applied as a search answer whatever the query
    in the box is now: the continuation of [handleSearchChange(q)] runs on
    the state current when the answer arrives, with the branch table of
    the search branch, and nothing compares [q] with the current query.
    The witness is reachable: "a" then "ab" are typed, the answer for "ab"
    arrives first, then the one for "a"; the box shows "ab" and the list
    becomes the results for "a". *)
Theorem stale_search_response_applied (s s' : Sys) (i : nat) (q : string) (r : AxiosResult Movie) :
  pending s !! i = Some (PSearch q) ->
  step s (Settle i (OList r)) = Some s' ->
  ui (world s') = apply_effect (Search.search_effect (list_outcome r)) (ui (world s)).
Proof.
  intros Hi. simpl. rewrite Hi. intros [= <-]. simpl.
  apply Search.search_resume_effect.
Qed.

Lemma stale_search_response_applied_witness :
  reachable (state_after newer_answered) /\
  searchQuery (ui (world (state_after newer_answered))) = "ab" /\
  pending (state_after newer_answered) !! 1 = Some (PSearch "a") /\
  step (state_after newer_answered) (Settle 1 (OList (axios_settle (ok_reply [movieA])))) =
    Some (state_after (newer_answered ++ [Settle 1 (OList (axios_settle (ok_reply [movieA])))])) /\
  ui (world (state_after (newer_answered ++ [Settle 1 (OList (axios_settle (ok_reply [movieA])))]))) =
    apply_effect (Search.search_effect (list_outcome (axios_settle (ok_reply [movieA]))))
      (ui (world (state_after newer_answered))).
Proof.
  assert (Hi : pending (state_after newer_answered) !! 1 = Some (PSearch "a")) by (vm_compute; reflexivity).
  assert (Hs : step (state_after newer_answered) (Settle 1 (OList (axios_settle (ok_reply [movieA])))) =
    Some (state_after (newer_answered ++ [Settle 1 (OList (axios_settle (ok_reply [movieA])))])))
    by (vm_compute; reflexivity).
  split; [apply state_after_reachable; vm_compute; eauto|].
  split; [vm_compute; reflexivity|]. split; [exact Hi|]. split; [exact Hs|].
  exact (stale_search_response_applied _ _ _ _ _ Hi Hs).
Defined.

(** C14: a trailer answer that arrives after the modal was closed opens
    it again: the selection becomes an object with a trailer property and
    none of the movie's properties. *)
Theorem trailer_reopens_closed_modal (s s' : Sys) (i : nat) (m : Movie) (l : list Video) :
  pending s !! i = Some (PVideos m) -> selectedMovie (ui (world s)) = None ->
  step s (Settle i (OVideos (axios_settle (ok_reply l)))) = Some s' ->
  exists t, selectedMovie (ui (world s')) = Some (mkSelected None t) /\ t <> TrailerUnset.
Proof.
  intros Hi Hnone. simpl. rewrite Hi. intros [= <-]. simpl.
  rewrite Detail.videos_resume_effect. cbn. rewrite Hnone.
  destruct (Detail.find_trailer l); eexists; (split; [reflexivity|discriminate]).
Qed.

Lemma trailer_reopens_closed_modal_witness :
  reachable (state_after click_close) /\
  pending (state_after click_close) !! 1 = Some (PVideos movieA) /\
  selectedMovie (ui (world (state_after click_close))) = None /\
  step (state_after click_close) (Settle 1 (OVideos (axios_settle (ok_reply [trailerA])))) =
    Some (state_after (click_close ++ [Settle 1 (OVideos (axios_settle (ok_reply [trailerA])))])) /\
  exists t, selectedMovie (ui (world (state_after (click_close ++ [Settle 1 (OVideos (axios_settle (ok_reply [trailerA])))])))) =
              Some (mkSelected None t) /\ t <> TrailerUnset.
Proof.
  assert (Hi : pending (state_after click_close) !! 1 = Some (PVideos movieA)) by (vm_compute; reflexivity).
  assert (Hn : selectedMovie (ui (world (state_after click_close))) = None) by (vm_compute; reflexivity).
  assert (Hs : step (state_after click_close) (Settle 1 (OVideos (axios_settle (ok_reply [trailerA])))) =
    Some (state_after (click_close ++ [Settle 1 (OVideos (axios_settle (ok_reply [trailerA])))])))
    by (vm_compute; reflexivity).
  split; [apply state_after_reachable; vm_compute; eauto|].
  split; [exact Hi|]. split; [exact Hn|]. split; [exact Hs|].
  exact (trailer_reopens_closed_modal _ _ _ _ _ Hi Hn Hs).
Defined.

(** C15: a trailer answer lands on whatever is selected when it arrives:
    after clicks on A then B, the answer to A's lookup is attached to B. *)
Theorem trailer_lands_on_current_selection (s s' : Sys) (i : nat) (m : Movie) (sel : Selected)
    (l : list Video) :
  pending s !! i = Some (PVideos m) -> selectedMovie (ui (world s)) = Some sel ->
  step s (Settle i (OVideos (axios_settle (ok_reply l)))) = Some s' ->
  option_map sel_movie (selectedMovie (ui (world s'))) = Some (sel_movie sel).
Proof.
  intros Hi Hsel. simpl. rewrite Hi. intros [= <-]. simpl.
  rewrite Detail.videos_resume_effect. cbn. rewrite Hsel.
  by destruct (Detail.find_trailer l).
Qed.

Lemma trailer_lands_on_current_selection_witness :
  reachable (state_after click_click) /\
  pending (state_after click_click) !! 1 = Some (PVideos movieA) /\
  selectedMovie (ui (world (state_after click_click))) = Some (select movieB) /\
  step (state_after click_click) (Settle 1 (OVideos (axios_settle (ok_reply [trailerA])))) =
    Some (state_after (click_click ++ [Settle 1 (OVideos (axios_settle (ok_reply [trailerA])))])) /\
  option_map sel_movie (selectedMovie (ui (world (state_after (click_click ++ [Settle 1 (OVideos (axios_settle (ok_reply [trailerA])))]))))) =
    Some (sel_movie (select movieB)).
Proof.
  assert (Hi : pending (state_after click_click) !! 1 = Some (PVideos movieA)) by (vm_compute; reflexivity).
  assert (Hn : selectedMovie (ui (world (state_after click_click))) = Some (select movieB))
    by (vm_compute; reflexivity).
  assert (Hs : step (state_after click_click) (Settle 1 (OVideos (axios_settle (ok_reply [trailerA])))) =
    Some (state_after (click_click ++ [Settle 1 (OVideos (axios_settle (ok_reply [trailerA])))])))
    by (vm_compute; reflexivity).
  split; [apply state_after_reachable; vm_compute; eauto|].
  split; [exact Hi|]. split; [exact Hn|]. split; [exact Hs|].
  exact (trailer_lands_on_current_selection _ _ _ _ _ _ Hi Hn Hs).
Defined.

(** C31: the search box shows the last text typed: after a keystroke,
    no later event other than another keystroke changes the input's value,
    whatever answers arrive and in whatever order. *)
Theorem input_box_shows_last_input (s s' : Sys) (q : string) (es : list Event) :
  run s (Input q :: es) = Some s' -> Forall no_input es ->
  View.input_value (View.render (ui (world s'))) = q.
Proof.
  cbn [run]. destruct (step s (Input q)) as [s1|] eqn:Hstep; [|discriminate].
  intros Hrun Hes. cbn [View.render View.input_value].
  rewrite (run_preserves no_input (fun s => searchQuery (ui (world s))) step_keeps_query s1 es s' Hes Hrun).
  simpl in Hstep. destruct (mounted s); [|discriminate]. injection Hstep as <-.
  unfold suspend. by rewrite Search.handleSearchChange_start_run.
Qed.

Lemma input_box_shows_last_input_witness :
  run (state_after [Mount]) (Input "batman" :: [Settle 0 (OList (axios_settle (ok_reply [movieA])));
                                                 Settle 1 (OList (axios_settle (ok_reply [movieB])))]) =
    Some (state_after [Mount; Input "batman"; Settle 0 (OList (axios_settle (ok_reply [movieA])));
                       Settle 1 (OList (axios_settle (ok_reply [movieB])))]) /\
  Forall no_input [Settle 0 (OList (axios_settle (ok_reply [movieA])));
                   Settle 1 (OList (axios_settle (ok_reply [movieB])))] /\
  View.input_value (View.render (ui (world (state_after [Mount; Input "batman";
     Settle 0 (OList (axios_settle (ok_reply [movieA]))); Settle 1 (OList (axios_settle (ok_reply [movieB])))])))) =
    "batman".
Proof.
  assert (Hr : run (state_after [Mount]) (Input "batman" :: [Settle 0 (OList (axios_settle (ok_reply [movieA])));
                                                 Settle 1 (OList (axios_settle (ok_reply [movieB])))]) =
    Some (state_after [Mount; Input "batman"; Settle 0 (OList (axios_settle (ok_reply [movieA])));
                       Settle 1 (OList (axios_settle (ok_reply [movieB])))])) by (vm_compute; reflexivity).
  assert (Hf : Forall no_input [Settle 0 (OList (axios_settle (ok_reply [movieA])));
                   Settle 1 (OList (axios_settle (ok_reply [movieB])))]) by (repeat constructor).
  split; [exact Hr|]. split; [exact Hf|].
  exact (input_box_shows_last_input _ _ _ _ Hr Hf).
Defined.

(** C32: the cards on screen are the last non-empty list answer that
    arrived, whichever request it answers (the catalog, a cleared query or
    any search, stale or not): no later keystroke, click, close or trailer
    answer changes them. *)
Theorem last_list_answer_wins (s s' : Sys) (i : nat) (l : list Movie) (es : list Event) :
  l <> [] -> run s (Settle i (OList (axios_settle (ok_reply l))) :: es) = Some s' ->
  Forall no_list_answer es ->
  View.cards (View.render (ui (world s'))) = map View.render_card l.
Proof.
  intros Hl. cbn [run].
  destruct (step s _) as [s1|] eqn:Hstep; [|discriminate]. intros Hrun Hes.
  cbn [View.render View.cards].
  rewrite (run_preserves no_list_answer (fun s => movies (ui (world s))) step_keeps_movies s1 es s' Hes Hrun).
  by rewrite (list_answer_movies _ _ _ _ Hl Hstep).
Qed.

Lemma last_list_answer_wins_witness :
  [movieA] <> [] /\
  run (state_after newer_answered)
    (Settle 1 (OList (axios_settle (ok_reply [movieA]))) :: [Input "abc"]) =
    Some (state_after (newer_answered ++ [Settle 1 (OList (axios_settle (ok_reply [movieA]))); Input "abc"])) /\
  Forall no_list_answer [Input "abc"] /\
  View.cards (View.render (ui (world (state_after
     (newer_answered ++ [Settle 1 (OList (axios_settle (ok_reply [movieA]))); Input "abc"]))))) =
    map View.render_card [movieA].
Proof.
  assert (Hl : [movieA] <> []) by discriminate.
  assert (Hr : run (state_after newer_answered)
    (Settle 1 (OList (axios_settle (ok_reply [movieA]))) :: [Input "abc"]) =
    Some (state_after (newer_answered ++ [Settle 1 (OList (axios_settle (ok_reply [movieA]))); Input "abc"])))
    by (vm_compute; reflexivity).
  assert (Hf : Forall no_list_answer [Input "abc"]) by (repeat constructor).
  split; [exact Hl|]. split; [exact Hr|]. split; [exact Hf|].
  exact (last_list_answer_wins _ _ _ _ _ Hl Hr Hf).
Defined.

End Ordering.
